(** * parser.c: driver of the SQL grammar, token filter and session parameters

    A shallow embedding of [src/parser/parser.c]: the session parameters
    ([parse_version], [parser_set_param], [GetDatabaseEncoding], [pg_mblen]),
    the one-token lookahead filter [base_yylex] that sits between the core
    scanner and the grammar, and the entry point [raw_parser]. *)

From Stdlib Require Import ZArith List String Ascii Bool Lia.
Import ListNotations.
Local Open Scope string_scope.
Local Open Scope Z_scope.

(** ** C integers *)

(** [int] is 32 bits wide; arithmetic results are reduced to the signed
    range the way a two's complement machine does it. *)
Definition wrap_int (z : Z) : Z := (z + 2147483648) mod 4294967296 - 2147483648.

(** [long] is 64 bits wide; [strtol] answers a number outside its range
    with [LONG_MIN] or [LONG_MAX]. *)
Definition clamp_long (z : Z) : Z :=
  Z.max (-9223372036854775808) (Z.min z 9223372036854775807).

(** ** The pieces of libc that [parse_version] relies on *)

Module Libc.

Definition isspace (c : ascii) : bool :=
  let n := Z.of_N (N_of_ascii c) in
  (n =? 32) || ((9 <=? n) && (n <=? 13)).

Definition isdigit (c : ascii) : bool :=
  let n := Z.of_N (N_of_ascii c) in
  (48 <=? n) && (n <=? 57).

Definition digit_value (c : ascii) : Z := Z.of_N (N_of_ascii c) - 48.

Fixpoint skip_space (s : string) : string :=
  match s with
  | String c rest => if isspace c then skip_space rest else s
  | EmptyString => s
  end.

(** The longest run of decimal digits at the head of [s], folded into
    [acc]; the flag tells whether at least one digit was read. *)
Fixpoint scan_digits (s : string) (acc : Z) (seen : bool) : Z * bool * string :=
  match s with
  | String c rest =>
      if isdigit c then scan_digits rest (10 * acc + digit_value c) true
      else (acc, seen, s)
  | EmptyString => (acc, seen, s)
  end.

(** Outcome of one [%d] directive. *)
Inductive conversion : Type :=
| Converted (v : Z) (rest : string)
| MatchFailure
| InputFailure.

(** [%d]: white space is skipped, then an optional sign and a non-empty
    digit sequence are read; the digits are converted as [strtol] does, to
    a [long] that saturates, and the result is stored into an [int]. *)
Definition conv_d (s : string) : conversion :=
  match skip_space s with
  | EmptyString => InputFailure
  | String c rest as s' =>
      let '(neg, body) :=
        if Ascii.eqb c "-" then (true, rest)
        else if Ascii.eqb c "+" then (false, rest)
        else (false, s') in
      match scan_digits body 0 false with
      | (v, true, rest') =>
          Converted (wrap_int (clamp_long (if neg then - v else v))) rest'
      | (_, false, EmptyString) => InputFailure
      | (_, false, _) => MatchFailure
      end
  end.

(** A literal ["."] in the format: [Some rest] when the input continues
    with a dot. *)
Definition match_dot (s : string) : option string :=
  match s with
  | String c rest => if Ascii.eqb c "." then Some rest else None
  | EmptyString => None
  end.

Definition EOF : Z := -1.

(** [sscanf(str, "%d.%d.%d", &a, &b, &c)]: the return value, and the
    values stored so far, in order.  A variable whose conversion did not
    happen is left as it was, so it does not appear in the list. *)
Definition sscanf_d_d_d (str : string) : Z * list Z :=
  match conv_d str with
  | InputFailure => (EOF, [])
  | MatchFailure => (0, [])
  | Converted a r1 =>
      match match_dot r1 with
      | None => (1, [a])
      | Some r2 =>
          match conv_d r2 with
          | InputFailure | MatchFailure => (1, [a])
          | Converted b r3 =>
              match match_dot r3 with
              | None => (2, [a; b])
              | Some r4 =>
                  match conv_d r4 with
                  | InputFailure | MatchFailure => (2, [a; b])
                  | Converted c _ => (3, [a; b; c])
                  end
              end
          end
      end
  end.

End Libc.

(** ** Session parameters *)

(** The two members of [enum pg_enc] that parser.c names. *)
Inductive pg_enc : Type := PG_SQL_ASCII | PG_UTF8.

(** The file-level variables written by [parser_set_param]:
    [server_version_num] and [server_encoding] are defined in parser.c,
    [standard_conforming_strings] belongs to the scanner. *)
Record parser_params : Type := mk_params {
  server_version_num : Z;
  server_encoding : pg_enc;
  standard_conforming_strings : bool
}.

(** The initialisers of parser.c: [server_version_num = 0] and
    [server_encoding = PG_SQL_ASCII].  The initial value of the scanner's
    flag is not fixed by this file. *)
Definition initial_params (scs : bool) : parser_params :=
  {| server_version_num := 0;
     server_encoding := PG_SQL_ASCII;
     standard_conforming_strings := scs |}.

(** [vmaj], [vmin] and [vrev] start out uninitialised; [vmaj0], [vmin0],
    [vrev0] stand for whatever they hold before [sscanf] runs. *)
Definition parse_version_from (vmaj0 vmin0 vrev0 : Z) (versionString : string) : Z :=
  let '(cnt, stored) := Libc.sscanf_d_d_d versionString in
  let vmaj := nth 0 stored vmaj0 in
  let vmin := nth 1 stored vmin0 in
  let vrev := nth 2 stored vrev0 in
  if cnt <? 2 then -1
  else
    let vrev := if cnt =? 2 then 0 else vrev in
    wrap_int (wrap_int (wrap_int (wrap_int (100 * vmaj) + vmin) * 100) + vrev).

Definition parse_version (versionString : string) : Z :=
  parse_version_from 0 0 0 versionString.

Definition parser_set_param (g : parser_params) (name value : string) : parser_params :=
  if String.eqb name "server_version" then
    {| server_version_num := parse_version value;
       server_encoding := server_encoding g;
       standard_conforming_strings := standard_conforming_strings g |}
  else if String.eqb name "server_encoding" then
    {| server_version_num := server_version_num g;
       server_encoding := if String.eqb value "UTF8" then PG_UTF8 else PG_SQL_ASCII;
       standard_conforming_strings := standard_conforming_strings g |}
  else if String.eqb name "standard_conforming_strings" then
    {| server_version_num := server_version_num g;
       server_encoding := server_encoding g;
       standard_conforming_strings := if String.eqb value "on" then true else false |}
  else g.

Definition GetDatabaseEncoding (g : parser_params) : pg_enc := server_encoding g.

(** ** Character lengths *)

(** The byte a [const unsigned char *] points at: the first character of
    the string, or the terminating NUL. *)
Definition deref (s : string) : Z :=
  match s with
  | String c _ => Z.of_N (N_of_ascii c)
  | EmptyString => 0
  end.

(** Modelled from the spec: [pg_utf_mblen] is defined outside parser.c.
    For UTF-8 the length is the one implied by the bit pattern of the
    leading byte: 1 for the ASCII range, 2, 3 or 4 for the standard lead-byte
    prefixes, and 1 for invalid or continuation-only bytes. *)
Definition pg_utf_mblen (s : string) : Z :=
  let b := deref s in
  if Z.land b 0x80 =? 0 then 1
  else if Z.land b 0xe0 =? 0xc0 then 2
  else if Z.land b 0xf0 =? 0xe0 then 3
  else if Z.land b 0xf8 =? 0xf0 then 4
  else 1.


(** A one-byte string for a byte value below 256. *)
Definition byte_string (b : Z) : string :=
  String (ascii_of_N (Z.to_N b)) EmptyString.

(** ** Errors

    [ereport(ERROR)] leaves the current function through [longjmp]; a
    computation that may do so either returns a value or raises. *)
Inductive exc (A : Type) : Type :=
| Return (a : A)
| Raise.
Arguments Return {A} a.
Arguments Raise {A}.

Definition bind {A B : Type} (m : exc A) (k : A -> exc B) : exc B :=
  match m with
  | Return a => k a
  | Raise => Raise
  end.

Notation "' pat <- m ;; k" :=
  (bind m (fun x => match x with pat => k end))
  (at level 61, pat pattern, m at next level, right associativity).

(** [PG_TRY(); { body } PG_CATCH(); { handler } PG_END_TRY();] where both
    blocks end in a [return]. *)
Definition PG_TRY {A B : Type} (body : exc A) (and_then : A -> B) (handler : B) : B :=
  match body with
  | Return a => and_then a
  | Raise => handler
  end.

(** [YYLTYPE] is [int]: an offset into the query string. *)
Definition YYLTYPE : Type := Z.

(** What one call of a lexer hands back: the returned token code together
    with the contents of [*lvalp], of [*llocp] and of the lexer's own state
    when it returns. *)
Definition lexed (V St : Type) : Type := (Z * V * YYLTYPE * St)%type.

(** A token as the grammar sees it. *)
Record token (V : Type) : Type := mk_token {
  kind : Z;
  value : V;
  location : YYLTYPE
}.
Arguments mk_token {V} kind value location.
Arguments kind {V} t.
Arguments value {V} t.
Arguments location {V} t.

(** The tokens obtained from [n] successive calls of a lexer, every call
    being given [*lvalp] and [*llocp] as the previous one left them.  The
    flag is set when a call raised an error, which ends the stream. *)
Fixpoint pull {V St : Type}
    (yylex : V -> YYLTYPE -> St -> exc (lexed V St))
    (n : nat) (lvalp : V) (llocp : YYLTYPE) (st : St) : list (token V) * bool :=
  match n with
  | O => ([], false)
  | S n' =>
      match yylex lvalp llocp st with
      | Raise => ([], true)
      | Return (t, lvalp', llocp', st') =>
          let '(ts, failed) := pull yylex n' lvalp' llocp' st' in
          (mk_token t lvalp' llocp' :: ts, failed)
      end
  end.

(** What [n] successive calls of a lexer leave behind: [*lvalp], [*llocp]
    and the lexer's state; an error raised by one of the calls ends the
    run. *)
Fixpoint state_after {V St : Type}
    (yylex : V -> YYLTYPE -> St -> exc (lexed V St))
    (n : nat) (lvalp : V) (llocp : YYLTYPE) (st : St) : exc (V * YYLTYPE * St) :=
  match n with
  | O => Return (lvalp, llocp, st)
  | S n' =>
      '(_, lvalp', llocp', st') <- yylex lvalp llocp st ;;
      state_after yylex n' lvalp' llocp' st'
  end.

(** ** What parser.c takes from the rest of the parser *)

(** Token codes of gram.h, which bison generates. *)
Class GramTokens : Type := {
  NULLS_P : Z;
  FIRST_P : Z;
  LAST_P : Z;
  WITH : Z;
  TIME : Z;
  NULLS_FIRST : Z;
  NULLS_LAST : Z;
  WITH_TIME : Z
}.

(** The core scanner of scan.l: [core_YYSTYPE] is the semantic value it
    fills in, [core_yy_extra_type] the state it works on (reached through
    [yyscanner]).  [core_yylex] may store into [*lvalp] and [*llocp],
    advances its state, and may report an error. *)
Class CoreScanner : Type := {
  core_YYSTYPE : Type;
  core_yy_extra_type : Type;
  core_yylex :
    core_YYSTYPE -> YYLTYPE -> core_yy_extra_type ->
    exc (lexed core_YYSTYPE core_yy_extra_type)
}.

(** The nodes of a raw parse tree. *)
Class ParseNodes : Type := { Node : Type }.

(** ** The lookahead filter and the driver *)

Section Parser.

Context {gram : GramTokens} {scanner : CoreScanner} {nodes : ParseNodes}.

Definition List : Type := list Node.
Definition NIL : List := [].

Record base_yy_extra_type : Type := mk_extra {
  core_yy_extra : core_yy_extra_type;
  have_lookahead : bool;
  lookahead_token : Z;
  lookahead_yylval : core_YYSTYPE;
  lookahead_yylloc : YYLTYPE;
  parsetree : List
}.

(** [yyextra->have_lookahead = false] *)
Definition clear_lookahead (yyextra : base_yy_extra_type) : base_yy_extra_type :=
  {| core_yy_extra := core_yy_extra yyextra;
     have_lookahead := false;
     lookahead_token := lookahead_token yyextra;
     lookahead_yylval := lookahead_yylval yyextra;
     lookahead_yylloc := lookahead_yylloc yyextra;
     parsetree := parsetree yyextra |}.

(** The effect of a scanner call on the state behind [yyscanner]. *)
Definition with_scanner (yyextra : base_yy_extra_type) (sc : core_yy_extra_type)
  : base_yy_extra_type :=
  {| core_yy_extra := sc;
     have_lookahead := have_lookahead yyextra;
     lookahead_token := lookahead_token yyextra;
     lookahead_yylval := lookahead_yylval yyextra;
     lookahead_yylloc := lookahead_yylloc yyextra;
     parsetree := parsetree yyextra |}.

(** "save the lookahead token for next time" *)
Definition save_lookahead (yyextra : base_yy_extra_type)
    (next_token : Z) (lval : core_YYSTYPE) (lloc : YYLTYPE) : base_yy_extra_type :=
  {| core_yy_extra := core_yy_extra yyextra;
     have_lookahead := true;
     lookahead_token := next_token;
     lookahead_yylval := lval;
     lookahead_yylloc := lloc;
     parsetree := parsetree yyextra |}.

(** [core_yylex(&(lvalp->core_yystype), llocp, yyscanner)] *)
Definition scan (lvalp : core_YYSTYPE) (llocp : YYLTYPE) (yyextra : base_yy_extra_type)
  : exc (lexed core_YYSTYPE base_yy_extra_type) :=
  '(t, lvalp', llocp', sc) <- core_yylex lvalp llocp (core_yy_extra yyextra) ;;
  Return (t, lvalp', llocp', with_scanner yyextra sc).

(** "Get next token --- we might already have it": the first statement of
    [base_yylex]. *)
Definition get_next_token (lvalp : core_YYSTYPE) (llocp : YYLTYPE)
    (yyextra : base_yy_extra_type)
  : exc (lexed core_YYSTYPE base_yy_extra_type) :=
  if have_lookahead yyextra then
    Return (lookahead_token yyextra, lookahead_yylval yyextra,
            lookahead_yylloc yyextra, clear_lookahead yyextra)
  else scan lvalp llocp yyextra.

Definition base_yylex (lvalp : core_YYSTYPE) (llocp : YYLTYPE)
    (yyextra : base_yy_extra_type)
  : exc (lexed core_YYSTYPE base_yy_extra_type) :=
  '(cur_token, lvalp, llocp, yyextra) <- get_next_token lvalp llocp yyextra ;;
  (* Do we need to look ahead for a possible multiword token? *)
  if cur_token =? NULLS_P then
    (* NULLS FIRST and NULLS LAST must be reduced to one token *)
    let cur_yylval := lvalp in
    let cur_yylloc := llocp in
    '(next_token, lvalp, llocp, yyextra) <- scan lvalp llocp yyextra ;;
    if next_token =? FIRST_P then Return (NULLS_FIRST, lvalp, llocp, yyextra)
    else if next_token =? LAST_P then Return (NULLS_LAST, lvalp, llocp, yyextra)
    else
      (* save the lookahead token, back up the output info to cur_token *)
      Return (cur_token, cur_yylval, cur_yylloc,
              save_lookahead yyextra next_token lvalp llocp)
  else if cur_token =? WITH then
    (* WITH TIME must be reduced to one token *)
    let cur_yylval := lvalp in
    let cur_yylloc := llocp in
    '(next_token, lvalp, llocp, yyextra) <- scan lvalp llocp yyextra ;;
    if next_token =? TIME then Return (WITH_TIME, lvalp, llocp, yyextra)
    else
      Return (cur_token, cur_yylval, cur_yylloc,
              save_lookahead yyextra next_token lvalp llocp)
  else Return (cur_token, lvalp, llocp, yyextra).

(** The stream the scanner produces, and the one the grammar receives. *)
Definition raw_stream := pull core_yylex.
Definition filtered_stream := pull base_yylex.

(** The lead tokens and, for each, the tokens it merges with. *)
Definition is_lead (t : Z) : bool := (t =? NULLS_P) || (t =? WITH).

Definition continues (lead probe : Z) : bool :=
  if lead =? NULLS_P then (probe =? FIRST_P) || (probe =? LAST_P)
  else if lead =? WITH then probe =? TIME
  else false.

(** The merge table: lead, probe, composite. *)
Definition merge_table : list (Z * Z * Z) :=
  [ (NULLS_P, FIRST_P, NULLS_FIRST);
    (NULLS_P, LAST_P, NULLS_LAST);
    (WITH, TIME, WITH_TIME) ].

(** *** The driver *)

(** [scanner_init], [parser_init] and the bison parser [base_yyparse] live
    in scan.l and gram.y.  The parser is handed the lexer it calls back;
    it returns [yyresult] and leaves its result in [yyextra], or is left
    by an error raised underneath it. *)
Class GrammarEngine : Type := {
  scanner_init : string -> core_yy_extra_type;
  parser_init : base_yy_extra_type -> base_yy_extra_type;
  base_yyparse :
    (core_YYSTYPE -> YYLTYPE -> base_yy_extra_type ->
       exc (lexed core_YYSTYPE base_yy_extra_type)) ->
    base_yy_extra_type -> exc (Z * base_yy_extra_type)
}.

Context {engine : GrammarEngine}.

(** The file-level variables [raw_parser] writes. *)
Record driver_globals : Type := mk_globals {
  parsetree_global : List;
  in_parser_context : bool
}.

Definition set_in_parser_context (g : driver_globals) (b : bool) : driver_globals :=
  {| parsetree_global := parsetree_global g; in_parser_context := b |}.

(** What [raw_parser] sets up before it calls the grammar: [scanner_init],
    [yyextra.have_lookahead = false], [parser_init].  [stack] is the
    uninitialised local [yyextra]. *)
Definition fresh_yyextra (stack : base_yy_extra_type) (str : string)
  : base_yy_extra_type :=
  parser_init
    {| core_yy_extra := scanner_init str;
       have_lookahead := false;
       lookahead_token := lookahead_token stack;
       lookahead_yylval := lookahead_yylval stack;
       lookahead_yylloc := lookahead_yylloc stack;
       parsetree := parsetree stack |}.

(** The result is what the caller of [raw_parser] observes: a returned
    list, or the error that escaped.  [scanner_finish] only releases what
    [scanner_init] allocated and has no counterpart here. *)
Definition raw_parser (stack : base_yy_extra_type) (g : driver_globals) (str : string)
  : exc List * driver_globals :=
  (* in case grammar forgets to set it *)
  let g := {| parsetree_global := NIL; in_parser_context := in_parser_context g |} in
  let yyextra := fresh_yyextra stack str in
  let g := set_in_parser_context g true in
  PG_TRY (base_yyparse base_yylex yyextra)
    (fun '(yyresult, yyextra) =>
       let g := set_in_parser_context g false in
       if negb (yyresult =? 0) then (Return NIL, g)
       else (Return (parsetree yyextra), g))
    (let g := set_in_parser_context g false in
     (Return NIL, g)).

End Parser.

(** ** A small scanner and grammar to run the definitions on *)

Module Sample.

(** Token codes as bison hands them out: above 257 and pairwise
    distinct. *)
Definition gram : GramTokens :=
  {| NULLS_P := 478; FIRST_P := 394; LAST_P := 441;
     WITH := 628; TIME := 596;
     NULLS_FIRST := 639; NULLS_LAST := 640; WITH_TIME := 641 |}.

Definition IDENT : Z := 258.

(** What is left of the input: tokens with their text and offset, or a
    place where the scanner reports an error. *)
Inductive item : Type :=
| Tok (code : Z) (text : string) (offset : Z)
| Bad.

(** Every token stores its text and its offset; at the end of the input
    the scanner returns 0. *)
Definition list_yylex (lvalp : string) (llocp : YYLTYPE) (input : list item)
  : exc (lexed string (list item)) :=
  match input with
  | [] => Return (0, lvalp, llocp, [])
  | Tok code text offset :: rest => Return (code, text, offset, rest)
  | Bad :: _ => Raise
  end.

Definition scanner : CoreScanner :=
  {| core_YYSTYPE := string;
     core_yy_extra_type := list item;
     core_yylex := list_yylex |}.

Definition nodes : ParseNodes := {| Node := string |}.

Definition extra : Type := @base_yy_extra_type scanner nodes.

(** A filter state with nothing buffered, reading [input]. *)
Definition start (input : list item) : extra :=
  @mk_extra scanner nodes input false 0 "" 0 [].

(** A filter state holding one buffered token. *)
Definition holding (code : Z) (text : string) (offset : Z) (input : list item) : extra :=
  @mk_extra scanner nodes input true code text offset [].

Definition yylex : string -> YYLTYPE -> extra -> exc (lexed string extra) :=
  @base_yylex gram scanner nodes.

(** One token per character: a blank separates, a quote is an
    unterminated literal, anything else is an identifier. *)
Fixpoint chars (str : string) (offset : Z) : list item :=
  match str with
  | EmptyString => []
  | String c rest =>
      if Ascii.eqb c " " then chars rest (offset + 1)
      else if Ascii.eqb c "'" then Bad :: chars rest (offset + 1)
      else Tok IDENT (String c EmptyString) offset :: chars rest (offset + 1)
  end.

Definition set_parsetree (yyextra : extra) (tree : list string) : extra :=
  @mk_extra scanner nodes (core_yy_extra yyextra) (have_lookahead yyextra)
    (lookahead_token yyextra) (lookahead_yylval yyextra)
    (lookahead_yylloc yyextra) tree.

(** A grammar with two sentences: the empty input, and one identifier.
    Anything else is a syntax error, reported through [yyresult]. *)
Definition one_word
    (lexer : string -> YYLTYPE -> extra -> exc (lexed string extra))
    (yyextra : extra) : exc (Z * extra) :=
  '(t1, lval, lloc, yyextra) <- lexer "" 0 yyextra ;;
  if t1 =? 0 then Return (0, yyextra)
  else if t1 =? IDENT then
    let word := lval in
    '(t2, lval, lloc, yyextra) <- lexer lval lloc yyextra ;;
    if t2 =? 0 then Return (0, set_parsetree yyextra [word])
    else Return (1, yyextra)
  else Return (1, yyextra).

Definition engine : @GrammarEngine scanner nodes :=
  @Build_GrammarEngine scanner nodes
    (fun str => chars str 0)
    (fun yyextra => set_parsetree yyextra [])
    one_word.

Definition parse (str : string) : exc (list string) :=
  fst (@raw_parser gram scanner nodes engine (start [])
         {| parsetree_global := []; in_parser_context := false |} str).

(** The tokens of [nulls first x with y], with the end-of-input token. *)
Definition query : list item :=
  [Tok 478 "nulls" 9; Tok 394 "first" 15; Tok 258 "x" 21;
   Tok 628 "with" 23; Tok 258 "y" 28; Tok 0 "" 30].

Definition query_tokens : list (token string) :=
  [mk_token 478 "nulls" 9; mk_token 394 "first" 15; mk_token 258 "x" 21;
   mk_token 628 "with" 23; mk_token 258 "y" 28; mk_token 0 "" 30].

End Sample.

(** ** Whole token streams *)

Section Streams.

Context {gram : GramTokens} {scanner : CoreScanner} {nodes : ParseNodes}.

(** The code assigned to [cur_token] in the inner switches, for a lead token
    and a probe that continues it. *)
Definition composite_of (lead probe : Z) : Z :=
  if lead =? NULLS_P then
    if probe =? FIRST_P then NULLS_FIRST else NULLS_LAST
  else WITH_TIME.

(** The filter described on lists: a lead token directly followed by a
    token that continues it gives one composite token, which keeps the value
    and the location of the second; every other token stays. *)
Fixpoint merge_tokens {V : Type} (ts : list (token V)) : list (token V) :=
  match ts with
  | [] => []
  | t :: rest =>
      match rest with
      | u :: rest' =>
          if continues (kind t) (kind u)
          then mk_token (composite_of (kind t) (kind u)) (value u) (location u)
                 :: merge_tokens rest'
          else t :: merge_tokens rest
      | [] => [t]
      end
  end.

(** The last token of the list, if any, is not a lead token. *)
Fixpoint ends_plain {V : Type} (ts : list (token V)) : bool :=
  match ts with
  | [] => true
  | t :: rest =>
      match rest with
      | [] => negb (is_lead (kind t))
      | _ :: _ => ends_plain rest
      end
  end.

(** Two filter states that [base_yylex] cannot tell apart: the same scanner
    state and the same flag, and the same buffered token when the flag is
    set. *)
Definition same_view (a b : base_yy_extra_type) : Prop :=
  core_yy_extra a = core_yy_extra b
  /\ have_lookahead a = have_lookahead b
  /\ (have_lookahead a = true ->
      lookahead_token a = lookahead_token b
      /\ lookahead_yylval a = lookahead_yylval b
      /\ lookahead_yylloc a = lookahead_yylloc b).

(** Every way a call of [base_yylex] can end. *)
Inductive yylex_outcome (lvalp : core_YYSTYPE) (llocp : YYLTYPE)
    (yyextra : base_yy_extra_type)
  : exc (lexed core_YYSTYPE base_yy_extra_type) -> Prop :=
| first_scan_raised :
    get_next_token lvalp llocp yyextra = Raise ->
    yylex_outcome lvalp llocp yyextra Raise
| plain_token t lval lloc yyextra1 :
    get_next_token lvalp llocp yyextra = Return (t, lval, lloc, yyextra1) ->
    is_lead t = false ->
    yylex_outcome lvalp llocp yyextra (Return (t, lval, lloc, yyextra1))
| probe_raised lead lval1 lloc1 yyextra1 :
    get_next_token lvalp llocp yyextra = Return (lead, lval1, lloc1, yyextra1) ->
    is_lead lead = true ->
    core_yylex lval1 lloc1 (core_yy_extra yyextra1) = Raise ->
    yylex_outcome lvalp llocp yyextra Raise
| merged lead lval1 lloc1 yyextra1 probe lval2 lloc2 sc2 :
    get_next_token lvalp llocp yyextra = Return (lead, lval1, lloc1, yyextra1) ->
    core_yylex lval1 lloc1 (core_yy_extra yyextra1) = Return (probe, lval2, lloc2, sc2) ->
    continues lead probe = true ->
    yylex_outcome lvalp llocp yyextra
      (Return (composite_of lead probe, lval2, lloc2, with_scanner yyextra1 sc2))
| lead_alone lead lval1 lloc1 yyextra1 probe lval2 lloc2 sc2 :
    get_next_token lvalp llocp yyextra = Return (lead, lval1, lloc1, yyextra1) ->
    is_lead lead = true ->
    core_yylex lval1 lloc1 (core_yy_extra yyextra1) = Return (probe, lval2, lloc2, sc2) ->
    continues lead probe = false ->
    yylex_outcome lvalp llocp yyextra
      (Return (lead, lval1, lloc1,
               save_lookahead (with_scanner yyextra1 sc2) probe lval2 lloc2)).

End Streams.

(** ** Version strings written out *)

Definition digit_char (d : Z) : ascii := ascii_of_N (Z.to_N (48 + d)).

(** The decimal numeral with the digits [ds], most significant first. *)
Fixpoint numeral (ds : list Z) : string :=
  match ds with
  | [] => EmptyString
  | d :: rest => String (digit_char d) (numeral rest)
  end.

Definition numeral_value (ds : list Z) : Z :=
  fold_left (fun acc d => 10 * acc + d) ds 0.

(** A non-empty list of decimal digits. *)
Definition is_numeral (ds : list Z) : bool :=
  match ds with
  | [] => false
  | _ :: _ => forallb (fun d => (0 <=? d) && (d <=? 9)) ds
  end.

(** What may follow the last number of a version string: nothing, or text
    that starts with neither a digit nor a dot. *)
Definition is_suffix (tail : string) : bool :=
  match tail with
  | EmptyString => true
  | String c _ => negb (Libc.isdigit c) && negb (Ascii.eqb c ".")
  end.

(** The text does not go on with a digit. *)
Definition no_digit_ahead (tail : string) : Prop :=
  match tail with
  | EmptyString => True
  | String c _ => Libc.isdigit c = false
  end.

Definition version_string (vmaj vmin vrev : list Z) (tail : string) : string :=
  numeral vmaj ++ "." ++ numeral vmin ++ "." ++ numeral vrev ++ tail.

(** * Properties *)

(** ** Version strings, encodings and the other session parameters *)

Example parse_version_spaces : parse_version " 8.  4rc1" = 80400.
Proof. reflexivity. Qed.

Example parse_version_single : parse_version "9" = -1.
Proof. reflexivity. Qed.

Example parse_version_empty : parse_version "" = -1.
Proof. reflexivity. Qed.

Example parse_version_negative : parse_version "-9.1" = -89900.
Proof. reflexivity. Qed.

Example pg_utf_mblen_e3 : pg_utf_mblen (byte_string 0xe3) = 3.
Proof. reflexivity. Qed.

Example pg_utf_mblen_continuation : pg_utf_mblen (byte_string 0x80) = 1.
Proof. reflexivity. Qed.

(** Fewer than two conversions always give the sentinel, whatever the
    uninitialised variables held. *)
Lemma parse_version_from_junk (a b c : Z) (v : string) :
  fst (Libc.sscanf_d_d_d v) < 2 -> parse_version_from a b c v = -1.
Proof.
  unfold parse_version_from.
  destruct (Libc.sscanf_d_d_d v) as [cnt stored]; simpl.
  intros H. apply Z.ltb_lt in H. now rewrite H.
Qed.

Lemma string_eqb_neq (a b : string) : a <> b -> String.eqb a b = false.
Proof. apply String.eqb_neq. Qed.

(** C8, as the code has it: ["9.1.3"] is stored as
    [(100*9+1)*100+3 = 90103], ["9.1"] as [90100], and ["bogus"] as the
    sentinel [-1]; the other parameters are left alone. *)
Theorem server_version_values (g : parser_params) :
  server_version_num (parser_set_param g "server_version" "9.1.3") = (100 * 9 + 1) * 100 + 3
  /\ server_version_num (parser_set_param g "server_version" "9.1.3") = 90103
  /\ server_version_num (parser_set_param g "server_version" "9.1") = 90100
  /\ server_version_num (parser_set_param g "server_version" "bogus") = -1.
Proof. repeat split. Qed.

(** C8, as the claim words it: the value stored for ["9.1.3"] is not
    91003. *)
Lemma server_version_913_is_not_91003 :
  server_version_num (parser_set_param (initial_params false) "server_version" "9.1.3")
  <> 91003.
Proof. vm_compute. discriminate. Qed.



(** C9: [parser_set_param] acts on [server_version], [server_encoding] and
    [standard_conforming_strings] and on nothing else.  Exactly the value
    ["UTF8"] selects [PG_UTF8], any other [PG_SQL_ASCII]; exactly ["on"]
    sets [standard_conforming_strings], any other value clears it; each
    name writes its own variable only; any other name leaves the state as
    it was. *)
Theorem parser_set_param_names (g : parser_params) (name value : string) :
  (name <> "server_version" -> name <> "server_encoding" ->
   name <> "standard_conforming_strings" ->
   parser_set_param g name value = g)
  /\ parser_set_param g "server_version" value
     = mk_params (parse_version value) (server_encoding g) (standard_conforming_strings g)
  /\ (value = "UTF8" ->
      parser_set_param g "server_encoding" value
      = mk_params (server_version_num g) PG_UTF8 (standard_conforming_strings g))
  /\ (value <> "UTF8" ->
      parser_set_param g "server_encoding" value
      = mk_params (server_version_num g) PG_SQL_ASCII (standard_conforming_strings g))
  /\ (value = "on" ->
      parser_set_param g "standard_conforming_strings" value
      = mk_params (server_version_num g) (server_encoding g) true)
  /\ (value <> "on" ->
      parser_set_param g "standard_conforming_strings" value
      = mk_params (server_version_num g) (server_encoding g) false).
Proof.
  repeat split.
  - intros H1 H2 H3. unfold parser_set_param.
    now rewrite (string_eqb_neq _ _ H1), (string_eqb_neq _ _ H2), (string_eqb_neq _ _ H3).
  - intros ->. reflexivity.
  - intros H. unfold parser_set_param; simpl. now rewrite (string_eqb_neq _ _ H).
  - intros ->. reflexivity.
  - intros H. unfold parser_set_param; simpl. now rewrite (string_eqb_neq _ _ H).
Qed.

Lemma parser_set_param_names_witness :
  parser_set_param (initial_params true) "client_encoding" "UTF8" = initial_params true
  /\ parser_set_param (initial_params true) "server_encoding" "utf8"
     = mk_params 0 PG_SQL_ASCII true
  /\ parser_set_param (initial_params true) "standard_conforming_strings" "ON"
     = mk_params 0 PG_SQL_ASCII false.
Proof.
  pose proof (parser_set_param_names (initial_params true) "client_encoding" "UTF8") as Hn.
  pose proof (parser_set_param_names (initial_params true) "x" "utf8") as He.
  pose proof (parser_set_param_names (initial_params true) "x" "ON") as Hs.
  destruct Hn as [Hn _].
  destruct He as (_ & _ & _ & He & _).
  destruct Hs as (_ & _ & _ & _ & _ & Hs).
  split; [| split].
  - apply Hn; apply String.eqb_neq; reflexivity.
  - apply He; apply String.eqb_neq; reflexivity.
  - apply Hs; apply String.eqb_neq; reflexivity.
Defined.

(** C10: before any [parser_set_param] the encoding is [PG_SQL_ASCII] and
    the version number is 0, which is not the value [-1] that an
    unparseable version string leaves behind. *)
Theorem initial_params_are_definite (scs : bool) :
  GetDatabaseEncoding (initial_params scs) = PG_SQL_ASCII
  /\ server_version_num (initial_params scs) = 0
  /\ server_version_num
       (parser_set_param (initial_params scs) "server_version" "bogus") = -1
  /\ server_version_num (initial_params scs)
     <> server_version_num
          (parser_set_param (initial_params scs) "server_version" "bogus").
Proof. repeat split. simpl. discriminate. Qed.

(** ** The lookahead filter *)

Section FilterFacts.

Context {gram : GramTokens} {scanner : CoreScanner} {nodes : ParseNodes}.

Implicit Types (lvalp lval : core_YYSTYPE) (llocp lloc : YYLTYPE).
Implicit Types (yyextra : base_yy_extra_type) (sc : core_yy_extra_type).

Lemma scan_returns lvalp llocp yyextra t lval lloc sc :
  core_yylex lvalp llocp (core_yy_extra yyextra) = Return (t, lval, lloc, sc) ->
  scan lvalp llocp yyextra = Return (t, lval, lloc, with_scanner yyextra sc).
Proof. unfold scan. now intros ->. Qed.

Lemma scan_raises lvalp llocp yyextra :
  core_yylex lvalp llocp (core_yy_extra yyextra) = Raise ->
  scan lvalp llocp yyextra = Raise.
Proof. unfold scan. now intros ->. Qed.

Lemma is_lead_false t :
  is_lead t = false -> (t =? NULLS_P) = false /\ (t =? WITH) = false.
Proof. unfold is_lead. apply orb_false_elim. Qed.

Lemma not_lead t : t <> NULLS_P -> t <> WITH -> is_lead t = false.
Proof.
  intros Hn Hw. unfold is_lead. apply Z.eqb_neq in Hn, Hw. now rewrite Hn, Hw.
Qed.

(** *** Where the current token comes from *)

Lemma get_next_token_fresh lvalp llocp yyextra t lval lloc sc :
  have_lookahead yyextra = false ->
  core_yylex lvalp llocp (core_yy_extra yyextra) = Return (t, lval, lloc, sc) ->
  get_next_token lvalp llocp yyextra = Return (t, lval, lloc, with_scanner yyextra sc).
Proof.
  intros Hfree Hscan. unfold get_next_token. rewrite Hfree.
  now apply scan_returns.
Qed.

Lemma get_next_token_buffered lvalp llocp yyextra :
  have_lookahead yyextra = true ->
  get_next_token lvalp llocp yyextra
  = Return (lookahead_token yyextra, lookahead_yylval yyextra,
            lookahead_yylloc yyextra, clear_lookahead yyextra).
Proof. intros Hheld. unfold get_next_token. now rewrite Hheld. Qed.

(** Either way the buffer is empty once the current token is in hand. *)
Lemma get_next_token_empties lvalp llocp yyextra t lval lloc yyextra1 :
  get_next_token lvalp llocp yyextra = Return (t, lval, lloc, yyextra1) ->
  have_lookahead yyextra1 = false.
Proof.
  unfold get_next_token, scan.
  destruct (have_lookahead yyextra) eqn:Hheld.
  - intros [= _ _ _ <-]. reflexivity.
  - destruct (core_yylex lvalp llocp (core_yy_extra yyextra))
      as [[[[t' lval'] lloc'] sc] |]; simpl; [| discriminate].
    intros [= _ _ _ <-]. exact Hheld.
Qed.

(** *** The three ways through the switch *)

(** The scanner's errors pass through the filter. *)
Lemma base_yylex_raises lvalp llocp yyextra :
  have_lookahead yyextra = false ->
  core_yylex lvalp llocp (core_yy_extra yyextra) = Raise ->
  base_yylex lvalp llocp yyextra = Raise.
Proof.
  intros Hfree Herr. unfold base_yylex, get_next_token.
  now rewrite Hfree, (scan_raises _ _ _ Herr).
Qed.

(** A token that starts no pair goes through as it is. *)
Lemma base_yylex_passes lvalp llocp yyextra t lval lloc yyextra1 :
  get_next_token lvalp llocp yyextra = Return (t, lval, lloc, yyextra1) ->
  is_lead t = false ->
  base_yylex lvalp llocp yyextra = Return (t, lval, lloc, yyextra1).
Proof.
  intros Hcur Hplain. unfold base_yylex. rewrite Hcur. simpl.
  destruct (is_lead_false _ Hplain) as [-> ->]. reflexivity.
Qed.

(** A lead token whose successor does not continue it comes out with its
    own value and location, and the successor is kept for the next call. *)
Lemma base_yylex_lead_alone lvalp llocp yyextra lead lval1 lloc1 yyextra1
    probe lval2 lloc2 sc2 :
  get_next_token lvalp llocp yyextra = Return (lead, lval1, lloc1, yyextra1) ->
  is_lead lead = true ->
  core_yylex lval1 lloc1 (core_yy_extra yyextra1) = Return (probe, lval2, lloc2, sc2) ->
  continues lead probe = false ->
  base_yylex lvalp llocp yyextra
  = Return (lead, lval1, lloc1,
            save_lookahead (with_scanner yyextra1 sc2) probe lval2 lloc2).
Proof.
  intros Hcur Hlead Hscan Hstop. unfold base_yylex.
  rewrite Hcur. simpl.
  unfold is_lead in Hlead. unfold continues in Hstop.
  rewrite (scan_returns _ _ _ _ _ _ _ Hscan).
  destruct (lead =? NULLS_P) eqn:Hn.
  - apply orb_false_elim in Hstop as [Hf Hl]. simpl. now rewrite Hf, Hl.
  - simpl in Hlead. rewrite Hlead in *. simpl. now rewrite Hstop.
Qed.

(** The three rows of the merge table, given that the case labels of each
    [switch] are distinct. *)
Lemma base_yylex_merges lvalp llocp yyextra lead probe composite
    lval1 lloc1 yyextra1 lval2 lloc2 sc2 :
  NULLS_P <> WITH -> FIRST_P <> LAST_P ->
  In (lead, probe, composite) merge_table ->
  get_next_token lvalp llocp yyextra = Return (lead, lval1, lloc1, yyextra1) ->
  core_yylex lval1 lloc1 (core_yy_extra yyextra1) = Return (probe, lval2, lloc2, sc2) ->
  base_yylex lvalp llocp yyextra
  = Return (composite, lval2, lloc2, with_scanner yyextra1 sc2).
Proof.
  intros Houter Hinner Hrow Hcur Hscan. unfold base_yylex.
  rewrite Hcur. simpl.
  assert (Hw : (WITH =? NULLS_P) = false) by (apply Z.eqb_neq; congruence).
  assert (Hl : (LAST_P =? FIRST_P) = false) by (apply Z.eqb_neq; congruence).
  rewrite (scan_returns _ _ _ _ _ _ _ Hscan).
  destruct Hrow as [Hrow | [Hrow | [Hrow | []]]]; inversion Hrow; subst; clear Hrow;
    rewrite ?Z.eqb_refl, ?Hw; simpl; rewrite ?Hl, ?Z.eqb_refl; reflexivity.
Qed.

(** C1: with nothing buffered, a lead token followed by its probe, for each
    row of the merge table (NULLS FIRST, NULLS LAST, WITH TIME), makes one
    call of [base_yylex] return the composite token of that row; the
    scanner has then been read exactly twice and nothing is buffered. *)
Theorem merge_table_pair_gives_one_composite lvalp llocp yyextra lead probe composite
    lval1 lloc1 sc1 lval2 lloc2 sc2 :
  NULLS_P <> WITH -> FIRST_P <> LAST_P ->
  In (lead, probe, composite) merge_table ->
  have_lookahead yyextra = false ->
  core_yylex lvalp llocp (core_yy_extra yyextra) = Return (lead, lval1, lloc1, sc1) ->
  core_yylex lval1 lloc1 sc1 = Return (probe, lval2, lloc2, sc2) ->
  exists lval lloc yyextra',
    base_yylex lvalp llocp yyextra = Return (composite, lval, lloc, yyextra')
    /\ core_yy_extra yyextra' = sc2
    /\ have_lookahead yyextra' = false
    /\ filtered_stream 1 lvalp llocp yyextra = ([mk_token composite lval lloc], false).
Proof.
  intros Houter Hinner Hrow Hfree Hscan1 Hscan2.
  exists lval2, lloc2, (with_scanner (with_scanner yyextra sc1) sc2).
  pose proof (get_next_token_fresh _ _ _ _ _ _ _ Hfree Hscan1) as Hcur.
  pose proof (base_yylex_merges _ _ _ _ _ _ _ _ _ _ _ _
                Houter Hinner Hrow Hcur Hscan2) as Hcall.
  repeat split; trivial.
  unfold filtered_stream; simpl. now rewrite Hcall.
Qed.

(** C4, as the code has it: whenever the filter merges a lead token, fresh
    from the scanner or taken from the buffer, with a matching probe, the
    composite token comes out with the value and the location that the
    scanner stored when it read the probe; the value and location of the
    lead token are dropped, and nothing is buffered. *)
Theorem composite_carries_what_the_probe_stored lvalp llocp yyextra lead probe composite
    lval1 lloc1 yyextra1 lval2 lloc2 sc2 :
  NULLS_P <> WITH -> FIRST_P <> LAST_P ->
  In (lead, probe, composite) merge_table ->
  get_next_token lvalp llocp yyextra = Return (lead, lval1, lloc1, yyextra1) ->
  core_yylex lval1 lloc1 (core_yy_extra yyextra1) = Return (probe, lval2, lloc2, sc2) ->
  exists yyextra',
    base_yylex lvalp llocp yyextra = Return (composite, lval2, lloc2, yyextra')
    /\ have_lookahead yyextra' = false
    /\ core_yy_extra yyextra' = sc2
    /\ lookahead_token yyextra' = lookahead_token yyextra1
    /\ lookahead_yylval yyextra' = lookahead_yylval yyextra1
    /\ lookahead_yylloc yyextra' = lookahead_yylloc yyextra1.
Proof.
  intros Houter Hinner Hrow Hcur Hscan.
  exists (with_scanner yyextra1 sc2).
  rewrite (base_yylex_merges _ _ _ _ _ _ _ _ _ _ _ _
             Houter Hinner Hrow Hcur Hscan).
  repeat split. simpl. exact (get_next_token_empties _ _ _ _ _ _ _ Hcur).
Qed.

(** C3: when none of the first [n] raw tokens is NULLS or WITH, the first
    [n] tokens that the filter hands to the grammar are those raw tokens,
    with the same codes, values and locations in the same order; and the
    filter reports a scanner error exactly where the scanner raised it. *)
Theorem filter_is_transparent_without_leads (n : nat) lvalp llocp yyextra :
  have_lookahead yyextra = false ->
  Forall (fun t => kind t <> NULLS_P /\ kind t <> WITH)
         (fst (raw_stream n lvalp llocp (core_yy_extra yyextra))) ->
  filtered_stream n lvalp llocp yyextra
  = raw_stream n lvalp llocp (core_yy_extra yyextra).
Proof.
  unfold filtered_stream, raw_stream.
  revert lvalp llocp yyextra.
  induction n as [| n IH]; intros lvalp llocp yyextra Hfree Hraw; [reflexivity |].
  simpl in *.
  destruct (core_yylex lvalp llocp (core_yy_extra yyextra))
    as [[[[t lval] lloc] sc] |] eqn:Hscan.
  - destruct (pull core_yylex n lval lloc sc) as [ts failed] eqn:Hrest.
    simpl in Hraw. inversion Hraw as [| ? ? [Hn Hw] Htail]; subst.
    simpl in Hn, Hw.
    rewrite (base_yylex_passes _ _ _ _ _ _ _
               (get_next_token_fresh _ _ _ _ _ _ _ Hfree Hscan) (not_lead _ Hn Hw)).
    rewrite (IH lval lloc (with_scanner yyextra sc)); simpl; trivial.
    + now rewrite Hrest.
    + now rewrite Hrest.
  - now rewrite (base_yylex_raises _ _ _ Hfree Hscan).
Qed.

End FilterFacts.

(** ** The driver *)

Section DriverFacts.

Context {gram : GramTokens} {scanner : CoreScanner} {nodes : ParseNodes}.
Context {engine : GrammarEngine}.

(** When the grammar completes without a syntax error, its result is
    returned. *)
Lemma raw_parser_success stack g str yyextra' :
  base_yyparse base_yylex (fresh_yyextra stack str) = Return (0, yyextra') ->
  fst (raw_parser stack g str) = Return (parsetree yyextra').
Proof. unfold raw_parser, PG_TRY. now intros ->. Qed.

(** C6: when an error is raised while the grammar runs (by the scanner
    underneath it or by the grammar itself), or when the grammar returns a
    non-zero result, [raw_parser] returns [NIL] to its caller: the error
    does not escape, no tree is returned, and [in_parser_context] is reset. *)
Theorem raw_parser_failure_returns_NIL stack g str :
  (base_yyparse base_yylex (fresh_yyextra stack str) = Raise
   \/ exists yyresult yyextra',
        base_yyparse base_yylex (fresh_yyextra stack str) = Return (yyresult, yyextra')
        /\ yyresult <> 0) ->
  fst (raw_parser stack g str) = Return NIL
  /\ in_parser_context (snd (raw_parser stack g str)) = false.
Proof.
  unfold raw_parser, PG_TRY.
  intros [-> | (yyresult & yyextra' & -> & Hfail)]; [split; reflexivity |].
  apply Z.eqb_neq in Hfail. rewrite Hfail. split; reflexivity.
Qed.

End DriverFacts.

(** ** Runs on the sample scanner and grammar *)

Example sample_parse_one_word : Sample.parse "a" = Return ["a"].
Proof. reflexivity. Qed.

Example sample_parse_empty : Sample.parse "" = Return [].
Proof. reflexivity. Qed.

Example sample_parse_syntax_error : Sample.parse "a b" = Return [].
Proof. reflexivity. Qed.

Lemma merge_table_pair_gives_one_composite_witness :
  exists lval lloc yyextra',
    @base_yylex Sample.gram Sample.scanner Sample.nodes "" 0
      (Sample.start [Sample.Tok 628 "with" 4; Sample.Tok 596 "time" 9])
    = Return (641, lval, lloc, yyextra')
    /\ @core_yy_extra Sample.scanner Sample.nodes yyextra' = []
    /\ @have_lookahead Sample.scanner Sample.nodes yyextra' = false
    /\ @filtered_stream Sample.gram Sample.scanner Sample.nodes 1 "" 0
         (Sample.start [Sample.Tok 628 "with" 4; Sample.Tok 596 "time" 9])
       = ([mk_token 641 lval lloc], false).
Proof.
  apply (@merge_table_pair_gives_one_composite Sample.gram Sample.scanner Sample.nodes
           "" 0 (Sample.start [Sample.Tok 628 "with" 4; Sample.Tok 596 "time" 9])
           628 596 641 "with" 4 [Sample.Tok 596 "time" 9] "time" 9 []).
  - simpl; lia.
  - simpl; lia.
  - right; right; left; reflexivity.
  - reflexivity.
  - reflexivity.
  - reflexivity.
Defined.

Lemma composite_carries_what_the_probe_stored_witness :
  exists yyextra',
    @base_yylex Sample.gram Sample.scanner Sample.nodes "" 0
      (Sample.start [Sample.Tok 478 "nulls" 9; Sample.Tok 441 "last" 15])
    = Return (640, "last", 15, yyextra')
    /\ @have_lookahead Sample.scanner Sample.nodes yyextra' = false
    /\ @core_yy_extra Sample.scanner Sample.nodes yyextra' = []
    /\ @lookahead_token Sample.scanner Sample.nodes yyextra' = 0
    /\ @lookahead_yylval Sample.scanner Sample.nodes yyextra' = ""
    /\ @lookahead_yylloc Sample.scanner Sample.nodes yyextra' = 0.
Proof.
  apply (@composite_carries_what_the_probe_stored Sample.gram Sample.scanner Sample.nodes
           "" 0 (Sample.start [Sample.Tok 478 "nulls" 9; Sample.Tok 441 "last" 15])
           478 441 640 "nulls" 9 (Sample.start [Sample.Tok 441 "last" 15]) "last" 15 []).
  - simpl; lia.
  - simpl; lia.
  - right; left; reflexivity.
  - reflexivity.
  - reflexivity.
Defined.

(** C4, as the claim words it: NULLS at offset 9 followed by FIRST at offset
    15 gives a NULLS_FIRST that does not carry the location 9 of the lead
    token; it carries the value and location of FIRST. *)
Lemma composite_location_is_not_the_leads :
  Sample.list_yylex "" 0 [Sample.Tok 478 "nulls" 9; Sample.Tok 394 "first" 15]
  = Return (478, "nulls", 9, [Sample.Tok 394 "first" 15])
  /\ Sample.yylex "" 0 (Sample.start [Sample.Tok 478 "nulls" 9; Sample.Tok 394 "first" 15])
     = Return (639, "first", 15, Sample.start [])
  /\ ~ (exists lval yyextra',
          Sample.yylex "" 0
            (Sample.start [Sample.Tok 478 "nulls" 9; Sample.Tok 394 "first" 15])
          = Return (639, lval, 9, yyextra')).
Proof.
  split; [reflexivity |]. split; [reflexivity |].
  intros (lval & yyextra' & H). vm_compute in H. discriminate H.
Qed.

(** C5, as the claim words it: with WITH buffered and TIME next in the
    input, the call does not return the buffered WITH; it reads the scanner
    and returns WITH_TIME.  With NULLS buffered and an identifier next, the
    call returns NULLS but has read the scanner and leaves the buffer
    full. *)
Lemma buffered_lead_token_probes_again :
  Sample.yylex "" 0 (Sample.holding 628 "with" 15 [Sample.Tok 596 "time" 20])
  = Return (641, "time", 20, @mk_extra Sample.scanner Sample.nodes [] false 628 "with" 15 [])
  /\ Sample.yylex "" 0 (Sample.holding 628 "with" 15 [Sample.Tok 596 "time" 20])
     <> Return (628, "with", 15, Sample.start [Sample.Tok 596 "time" 20])
  /\ Sample.yylex "" 0 (Sample.holding 478 "nulls" 9 [Sample.Tok 258 "x" 15])
     = Return (478, "nulls", 9, Sample.holding 258 "x" 15 []).
Proof.
  split; [reflexivity |]. split; [| reflexivity].
  vm_compute. discriminate.
Qed.

(** C2, as the claim words it: NULLS, WITH, TIME.  WITH does not continue
    NULLS, so the first call returns NULLS; the next call does not return
    the probed WITH but the composite WITH_TIME with the value and location
    of TIME. *)
Lemma probe_that_is_a_lead_is_merged :
  @continues Sample.gram 478 628 = false
  /\ Sample.yylex "" 0
       (Sample.start [Sample.Tok 478 "nulls" 9; Sample.Tok 628 "with" 15;
                      Sample.Tok 596 "time" 20])
     = Return (478, "nulls", 9, Sample.holding 628 "with" 15 [Sample.Tok 596 "time" 20])
  /\ Sample.yylex "nulls" 9 (Sample.holding 628 "with" 15 [Sample.Tok 596 "time" 20])
     = Return (641, "time", 20, @mk_extra Sample.scanner Sample.nodes [] false 628 "with" 15 [])
  /\ fst (@filtered_stream Sample.gram Sample.scanner Sample.nodes 2 "" 0
            (Sample.start [Sample.Tok 478 "nulls" 9; Sample.Tok 628 "with" 15;
                           Sample.Tok 596 "time" 20]))
     <> [mk_token 478 "nulls" 9; mk_token 628 "with" 15].
Proof.
  repeat split. vm_compute. discriminate.
Qed.

Lemma filter_is_transparent_without_leads_witness :
  @filtered_stream Sample.gram Sample.scanner Sample.nodes 4 "" 0
    (Sample.start [Sample.Tok 258 "a" 0; Sample.Tok 394 "first" 2; Sample.Bad])
  = @raw_stream Sample.scanner 4 "" 0
      [Sample.Tok 258 "a" 0; Sample.Tok 394 "first" 2; Sample.Bad].
Proof.
  apply (@filter_is_transparent_without_leads Sample.gram Sample.scanner Sample.nodes
           4%nat "" 0
           (Sample.start [Sample.Tok 258 "a" 0; Sample.Tok 394 "first" 2; Sample.Bad])).
  - reflexivity.
  - repeat constructor; simpl; lia.
Defined.

Lemma raw_parser_failure_returns_NIL_witness :
  Sample.parse "a'" = Return []
  /\ @in_parser_context Sample.nodes
       (snd (@raw_parser Sample.gram Sample.scanner Sample.nodes Sample.engine
               (Sample.start []) (@mk_globals Sample.nodes [] false) "a'")) = false.
Proof.
  apply (@raw_parser_failure_returns_NIL Sample.gram Sample.scanner Sample.nodes
           Sample.engine (Sample.start []) (@mk_globals Sample.nodes [] false) "a'").
  left. reflexivity.
Defined.

(** ** More on the lookahead filter *)

Section FilterStreams.

Context {gram : GramTokens} {scanner : CoreScanner} {nodes : ParseNodes}.

Implicit Types (lvalp lval : core_YYSTYPE) (llocp lloc : YYLTYPE).
Implicit Types (yyextra : base_yy_extra_type) (sc : core_yy_extra_type).
Implicit Types (ts : list (token core_YYSTYPE)).

Lemma token_eta (t : token core_YYSTYPE) :
  mk_token (kind t) (value t) (location t) = t.
Proof. now destruct t. Qed.

(** A lead token and a probe that continues it: the composite comes out,
    with what the scanner stored for the probe. *)
Lemma base_yylex_composite lvalp llocp yyextra lead lval1 lloc1 yyextra1
    probe lval2 lloc2 sc2 :
  get_next_token lvalp llocp yyextra = Return (lead, lval1, lloc1, yyextra1) ->
  core_yylex lval1 lloc1 (core_yy_extra yyextra1) = Return (probe, lval2, lloc2, sc2) ->
  continues lead probe = true ->
  base_yylex lvalp llocp yyextra
  = Return (composite_of lead probe, lval2, lloc2, with_scanner yyextra1 sc2).
Proof.
  intros Hcur Hscan Hgo. unfold base_yylex. rewrite Hcur. simpl.
  rewrite (scan_returns _ _ _ _ _ _ _ Hscan).
  unfold continues in Hgo. unfold composite_of.
  destruct (lead =? NULLS_P).
  - simpl. destruct (probe =? FIRST_P); [reflexivity |].
    simpl in Hgo. now rewrite Hgo.
  - destruct (lead =? WITH); [| discriminate]. simpl. now rewrite Hgo.
Qed.

Lemma continues_is_lead lead probe : continues lead probe = true -> is_lead lead = true.
Proof.
  unfold continues, is_lead.
  destruct (lead =? NULLS_P); [reflexivity |].
  destruct (lead =? WITH); [reflexivity | discriminate].
Qed.

(** The probe raised: so does the call, and the lead token is gone. *)
Lemma base_yylex_probe_raises lvalp llocp yyextra lead lval1 lloc1 yyextra1 :
  get_next_token lvalp llocp yyextra = Return (lead, lval1, lloc1, yyextra1) ->
  is_lead lead = true ->
  core_yylex lval1 lloc1 (core_yy_extra yyextra1) = Raise ->
  base_yylex lvalp llocp yyextra = Raise.
Proof.
  intros Hcur Hlead Herr. unfold base_yylex. rewrite Hcur. simpl.
  rewrite (scan_raises _ _ _ Herr).
  unfold is_lead in Hlead.
  destruct (lead =? NULLS_P); [reflexivity |].
  simpl in Hlead. now rewrite Hlead.
Qed.

Lemma base_yylex_outcome lvalp llocp yyextra :
  yylex_outcome lvalp llocp yyextra (base_yylex lvalp llocp yyextra).
Proof.
  destruct (get_next_token lvalp llocp yyextra)
    as [[[[t lval] lloc] yyextra1] |] eqn:Hcur.
  - destruct (is_lead t) eqn:Hlead.
    + destruct (core_yylex lval lloc (core_yy_extra yyextra1))
        as [[[[probe lval2] lloc2] sc2] |] eqn:Hscan.
      * destruct (continues t probe) eqn:Hgo.
        -- rewrite (base_yylex_composite _ _ _ _ _ _ _ _ _ _ _ Hcur Hscan Hgo).
           now apply merged with lval lloc.
        -- rewrite (base_yylex_lead_alone _ _ _ _ _ _ _ _ _ _ _ Hcur Hlead Hscan Hgo).
           now apply lead_alone.
      * rewrite (base_yylex_probe_raises _ _ _ _ _ _ _ Hcur Hlead Hscan).
        now apply probe_raised with t lval lloc yyextra1.
    + rewrite (base_yylex_passes _ _ _ _ _ _ _ Hcur Hlead).
      now apply plain_token.
  - unfold base_yylex. rewrite Hcur. simpl. now apply first_scan_raised.
Qed.

Lemma is_lead_true t : is_lead t = true <-> t = NULLS_P \/ t = WITH.
Proof.
  unfold is_lead. rewrite orb_true_iff, !Z.eqb_eq. tauto.
Qed.

Lemma get_next_token_raises lvalp llocp yyextra :
  get_next_token lvalp llocp yyextra = Raise <->
  have_lookahead yyextra = false
  /\ core_yylex lvalp llocp (core_yy_extra yyextra) = Raise.
Proof.
  unfold get_next_token, scan.
  destruct (have_lookahead yyextra).
  - split; [discriminate | intros [? _]; discriminate].
  - destruct (core_yylex lvalp llocp (core_yy_extra yyextra))
      as [[[[t lval] lloc] sc] |]; simpl;
      (split; [intros H; try discriminate H; now split | intros [_ H]; now try discriminate H]).
Qed.

Lemma get_next_token_parsetree lvalp llocp yyextra t lval lloc yyextra1 :
  get_next_token lvalp llocp yyextra = Return (t, lval, lloc, yyextra1) ->
  parsetree yyextra1 = parsetree yyextra.
Proof.
  unfold get_next_token, scan.
  destruct (have_lookahead yyextra).
  - intros [= _ _ _ <-]. reflexivity.
  - destruct (core_yylex lvalp llocp (core_yy_extra yyextra))
      as [[[[t' lval'] lloc'] sc] |]; simpl; [| discriminate].
    intros [= _ _ _ <-]. reflexivity.
Qed.

(** X1: the filter raises no error of its own.  A call raises exactly when
    one of its calls of the scanner does: the one that fetches the current
    token (made only when nothing is buffered), or the probe after a lead
    token, in which case that lead token is never handed out. *)
Theorem filter_raises_exactly_with_the_scanner lvalp llocp yyextra :
  base_yylex lvalp llocp yyextra = Raise <->
  (have_lookahead yyextra = false
   /\ core_yylex lvalp llocp (core_yy_extra yyextra) = Raise)
  \/ (exists lead lval lloc yyextra1,
        get_next_token lvalp llocp yyextra = Return (lead, lval, lloc, yyextra1)
        /\ (lead = NULLS_P \/ lead = WITH)
        /\ core_yylex lval lloc (core_yy_extra yyextra1) = Raise).
Proof.
  split.
  - intros Hraise.
    pose proof (base_yylex_outcome lvalp llocp yyextra) as Hout.
    rewrite Hraise in Hout. inversion Hout as [Hcur | | lead lval lloc yyextra1 Hcur Hlead Herr | |].
    + left. now apply get_next_token_raises.
    + right. exists lead, lval, lloc, yyextra1.
      repeat split; trivial. now apply is_lead_true.
  - intros [Hfirst | (lead & lval & lloc & yyextra1 & Hcur & Hlead & Herr)].
    + apply get_next_token_raises in Hfirst.
      unfold base_yylex. now rewrite Hfirst.
    + apply (base_yylex_probe_raises _ _ _ _ _ _ _ Hcur); trivial.
      now apply is_lead_true.
Qed.

(** X2: the buffer is filled by an unmerged lead token only.  When a call
    returns with a token buffered, the token it returned is NULLS or WITH
    and the buffered token is one that does not continue it; a call that
    returns anything else leaves the buffer empty. *)
Theorem buffer_holds_only_the_probe_of_a_lead lvalp llocp yyextra t lval lloc yyextra' :
  base_yylex lvalp llocp yyextra = Return (t, lval, lloc, yyextra') ->
  have_lookahead yyextra' = true ->
  (t = NULLS_P \/ t = WITH)
  /\ continues t (lookahead_token yyextra') = false.
Proof.
  intros Hcall Hheld.
  pose proof (base_yylex_outcome lvalp llocp yyextra) as Hout.
  rewrite Hcall in Hout.
  inversion Hout as [ | ? ? ? ? Hcur Hplain | | ? ? ? yyextra1 ? ? ? ? Hcur Hscan Hgo
                      | ? ? ? ? ? ? ? ? Hcur Hlead Hscan Hstop]; subst.
  - rewrite (get_next_token_empties _ _ _ _ _ _ _ Hcur) in Hheld. discriminate.
  - simpl in Hheld.
    rewrite (get_next_token_empties _ _ _ _ _ _ _ Hcur) in Hheld. discriminate.
  - split; [now apply is_lead_true | exact Hstop].
Qed.

(** X3: the filter leaves the grammar's result slot alone: whatever a call
    returns, [yyextra->parsetree] is what it was before. *)
Theorem filter_keeps_parsetree lvalp llocp yyextra t lval lloc yyextra' :
  base_yylex lvalp llocp yyextra = Return (t, lval, lloc, yyextra') ->
  parsetree yyextra' = parsetree yyextra.
Proof.
  intros Hcall.
  pose proof (base_yylex_outcome lvalp llocp yyextra) as Hout.
  rewrite Hcall in Hout.
  inversion Hout as [ | ? ? ? ? Hcur Hplain | | ? ? ? yyextra1 ? ? ? ? Hcur Hscan Hgo
                      | ? ? ? yyextra1 ? ? ? ? Hcur Hlead Hscan Hstop]; subst; simpl;
    eauto using get_next_token_parsetree.
Qed.

(** *** What the filter reads of its state *)

Lemma same_view_with_scanner (a b : base_yy_extra_type) sc :
  have_lookahead a = false -> have_lookahead b = false ->
  same_view (with_scanner a sc) (with_scanner b sc).
Proof.
  intros Ha Hb. unfold same_view; simpl.
  split; [reflexivity |]. split; [congruence |].
  intros Hheld. congruence.
Qed.

Lemma same_view_save (a b : base_yy_extra_type) sc t lval lloc :
  same_view (save_lookahead (with_scanner a sc) t lval lloc)
            (save_lookahead (with_scanner b sc) t lval lloc).
Proof. repeat split. Qed.

Lemma get_next_token_same_view (a b : base_yy_extra_type) lvalp llocp :
  same_view a b ->
  (get_next_token lvalp llocp a = Raise /\ get_next_token lvalp llocp b = Raise)
  \/ (exists t lval lloc a1 b1,
        get_next_token lvalp llocp a = Return (t, lval, lloc, a1)
        /\ get_next_token lvalp llocp b = Return (t, lval, lloc, b1)
        /\ core_yy_extra a1 = core_yy_extra b1).
Proof.
  intros (Hsc & Hflag & Hbuf). unfold get_next_token, scan.
  rewrite <- Hflag, <- Hsc.
  destruct (have_lookahead a) eqn:Ha.
  - destruct (Hbuf eq_refl) as (-> & -> & ->).
    right. do 5 eexists. repeat split. simpl. exact Hsc.
  - destruct (core_yylex lvalp llocp (core_yy_extra a))
      as [[[[t lval] lloc] sc] |]; simpl.
    + right. do 5 eexists. repeat split.
    + left. split; reflexivity.
Qed.

Lemma base_yylex_same_view (a b : base_yy_extra_type) lvalp llocp :
  same_view a b ->
  (base_yylex lvalp llocp a = Raise /\ base_yylex lvalp llocp b = Raise)
  \/ (exists t lval lloc a' b',
        base_yylex lvalp llocp a = Return (t, lval, lloc, a')
        /\ base_yylex lvalp llocp b = Return (t, lval, lloc, b')
        /\ same_view a' b').
Proof.
  intros Hview.
  destruct (get_next_token_same_view a b lvalp llocp Hview)
    as [[Ha Hb] | (t & lval & lloc & a1 & b1 & Ha & Hb & Hsc)].
  - left. unfold base_yylex. now rewrite Ha, Hb.
  - pose proof (get_next_token_empties _ _ _ _ _ _ _ Ha) as Hfa.
    pose proof (get_next_token_empties _ _ _ _ _ _ _ Hb) as Hfb.
    assert (Hview1 : same_view a1 b1).
    { unfold same_view. split; [exact Hsc |]. split; [congruence |].
      intros Hheld. congruence. }
    destruct (is_lead t) eqn:Hlead.
    + destruct (core_yylex lval lloc (core_yy_extra a1))
        as [[[[probe lval2] lloc2] sc2] |] eqn:Hscan.
      * assert (Hscan' := Hscan). rewrite Hsc in Hscan'.
        destruct (continues t probe) eqn:Hgo.
        -- right. do 5 eexists.
           split; [exact (base_yylex_composite _ _ _ _ _ _ _ _ _ _ _ Ha Hscan Hgo) |].
           split; [exact (base_yylex_composite _ _ _ _ _ _ _ _ _ _ _ Hb Hscan' Hgo) |].
           now apply same_view_with_scanner.
        -- right. do 5 eexists.
           split; [exact (base_yylex_lead_alone _ _ _ _ _ _ _ _ _ _ _ Ha Hlead Hscan Hgo) |].
           split; [exact (base_yylex_lead_alone _ _ _ _ _ _ _ _ _ _ _ Hb Hlead Hscan' Hgo) |].
           apply same_view_save.
      * assert (Hscan' := Hscan). rewrite Hsc in Hscan'.
        left. split.
        -- exact (base_yylex_probe_raises _ _ _ _ _ _ _ Ha Hlead Hscan).
        -- exact (base_yylex_probe_raises _ _ _ _ _ _ _ Hb Hlead Hscan').
    + right. do 5 eexists.
      split; [exact (base_yylex_passes _ _ _ _ _ _ _ Ha Hlead) |].
      split; [exact (base_yylex_passes _ _ _ _ _ _ _ Hb Hlead) |].
      exact Hview1.
Qed.

Lemma filtered_stream_same_view (n : nat) :
  forall (a b : base_yy_extra_type) lvalp llocp,
    same_view a b ->
    filtered_stream n lvalp llocp a = filtered_stream n lvalp llocp b.
Proof.
  unfold filtered_stream.
  induction n as [| n IH]; intros a b lvalp llocp Hview; [reflexivity |].
  simpl.
  destruct (base_yylex_same_view a b lvalp llocp Hview)
    as [[-> ->] | (t & lval & lloc & a' & b' & -> & -> & Hview')];
    [reflexivity |].
  now rewrite (IH a' b' lval lloc Hview').
Qed.

(** X4: "base_yylex() only needs this much initialization".  With
    [have_lookahead] cleared, the tokens the grammar receives depend on the
    scanner alone: two filter states with the same scanner state give the
    same stream, whatever their [lookahead_token], [lookahead_yylval],
    [lookahead_yylloc] and [parsetree] fields hold. *)
Theorem cleared_flag_is_all_the_filter_needs (n : nat)
    (a b : base_yy_extra_type) lvalp llocp :
  have_lookahead a = false ->
  have_lookahead b = false ->
  core_yy_extra a = core_yy_extra b ->
  filtered_stream n lvalp llocp a = filtered_stream n lvalp llocp b.
Proof.
  intros Ha Hb Hsc. apply filtered_stream_same_view.
  unfold same_view. split; [exact Hsc |]. split; [congruence |].
  intros Hheld. congruence.
Qed.

(** *** The filter on whole streams *)

Lemma continues_plain t u : is_lead t = false -> continues t u = false.
Proof.
  intros Hplain. destruct (continues t u) eqn:Hgo; [| reflexivity].
  apply continues_is_lead in Hgo. congruence.
Qed.

Lemma merge_tokens_keep (t : token core_YYSTYPE) ts :
  match ts with
  | [] => True
  | u :: _ => continues (kind t) (kind u) = false
  end ->
  merge_tokens (t :: ts) = t :: merge_tokens ts.
Proof.
  destruct ts as [| u ts]; [reflexivity |].
  intros Hstop. cbn [merge_tokens]. now rewrite Hstop.
Qed.

Lemma merge_tokens_join (t u : token core_YYSTYPE) ts :
  continues (kind t) (kind u) = true ->
  merge_tokens (t :: u :: ts)
  = mk_token (composite_of (kind t) (kind u)) (value u) (location u)
      :: merge_tokens ts.
Proof. intros Hgo. cbn [merge_tokens]. now rewrite Hgo. Qed.

Lemma ends_plain_tail (t : token core_YYSTYPE) ts :
  ends_plain (t :: ts) = true -> ends_plain ts = true.
Proof. destruct ts; [reflexivity | trivial]. Qed.

Lemma raw_stream_cons (m : nat) lvalp llocp sc (tok : token core_YYSTYPE) ts :
  raw_stream m lvalp llocp sc = (tok :: ts, false) ->
  exists m1 sc1,
    m = S m1
    /\ core_yylex lvalp llocp sc = Return (kind tok, value tok, location tok, sc1)
    /\ raw_stream m1 (value tok) (location tok) sc1 = (ts, false).
Proof.
  unfold raw_stream. destruct m as [| m1]; simpl; [discriminate |].
  destruct (core_yylex lvalp llocp sc) as [[[[t lval] lloc] sc1] |]; [| discriminate].
  destruct (pull core_yylex m1 lval lloc sc1) as [ts' failed] eqn:Hrest.
  intros [= <- <- <-]. exists m1, sc1. simpl. now rewrite Hrest.
Qed.

Lemma raw_stream_length (m : nat) :
  forall lvalp llocp sc ts,
    raw_stream m lvalp llocp sc = (ts, false) -> List.length ts = m.
Proof.
  unfold raw_stream.
  induction m as [| m IH]; intros lvalp llocp sc ts; simpl.
  - now intros [= <-].
  - destruct (core_yylex lvalp llocp sc) as [[[[t lval] lloc] sc1] |]; [| discriminate].
    destruct (pull core_yylex m lval lloc sc1) as [ts' failed] eqn:Hrest.
    intros [= <- ->]. simpl. f_equal. now apply (IH lval lloc sc1).
Qed.

Lemma filtered_stream_cons (n : nat) lvalp llocp yyextra t lval lloc yyextra' out :
  base_yylex lvalp llocp yyextra = Return (t, lval, lloc, yyextra') ->
  filtered_stream n lval lloc yyextra' = (out, false) ->
  filtered_stream (S n) lvalp llocp yyextra = (mk_token t lval lloc :: out, false).
Proof.
  unfold filtered_stream. simpl. intros -> Hrest. now rewrite Hrest.
Qed.

(** With the current token in hand and the raw tokens that follow it
    known, the filter hands out their merge. *)
Lemma filtered_stream_from_current (k : nat) :
  forall ts1 (m1 : nat) lvalp llocp yyextra t lval1 lloc1 yyextra1,
    List.length ts1 = k ->
    get_next_token lvalp llocp yyextra = Return (t, lval1, lloc1, yyextra1) ->
    raw_stream m1 lval1 lloc1 (core_yy_extra yyextra1) = (ts1, false) ->
    ends_plain (mk_token t lval1 lloc1 :: ts1) = true ->
    filtered_stream (List.length (merge_tokens (mk_token t lval1 lloc1 :: ts1)))
      lvalp llocp yyextra
    = (merge_tokens (mk_token t lval1 lloc1 :: ts1), false).
Proof.
  induction k as [k IH] using (well_founded_induction lt_wf).
  intros ts1 m1 lvalp llocp yyextra t lval1 lloc1 yyextra1 Hlen Hcur Hraw Hend.
  pose proof (get_next_token_empties _ _ _ _ _ _ _ Hcur) as Hfree1.
  (* what the filter does from a state with an empty buffer, by [IH] *)
  assert (Hfresh : forall ts (m : nat) lval lloc yyextra0,
             (List.length ts <= k)%nat ->
             have_lookahead yyextra0 = false ->
             raw_stream m lval lloc (core_yy_extra yyextra0) = (ts, false) ->
             ends_plain ts = true ->
             filtered_stream (List.length (merge_tokens ts)) lval lloc yyextra0
             = (merge_tokens ts, false)).
  { intros ts m lval lloc yyextra0 Hle Hfree0 Hraw0 Hend0.
    destruct ts as [| tok ts']; [reflexivity |].
    destruct (raw_stream_cons _ _ _ _ _ _ Hraw0) as (m' & sc' & _ & Hscan' & Hraw').
    pose proof (get_next_token_fresh _ _ _ _ _ _ _ Hfree0 Hscan') as Hcur'.
    rewrite <- (token_eta tok).
    apply (IH (List.length ts')) with (m1 := m') (yyextra1 := with_scanner yyextra0 sc');
      trivial. }
  destruct (is_lead t) eqn:Hlead.
  - (* a lead token: the probe decides *)
    destruct ts1 as [| tok2 ts2].
    { simpl in Hend. rewrite Hlead in Hend. discriminate. }
    destruct (raw_stream_cons _ _ _ _ _ _ Hraw) as (m2 & sc2 & _ & Hscan2 & Hraw2).
    simpl in Hlen.
    destruct (continues t (kind tok2)) eqn:Hgo.
    + rewrite merge_tokens_join by exact Hgo. simpl List.length.
      eapply filtered_stream_cons.
      * exact (base_yylex_composite _ _ _ _ _ _ _ _ _ _ _ Hcur Hscan2 Hgo).
      * apply (Hfresh ts2 m2); trivial; [lia |].
        now apply ends_plain_tail with tok2.
    + rewrite merge_tokens_keep by exact Hgo. simpl List.length.
      eapply filtered_stream_cons.
      * exact (base_yylex_lead_alone _ _ _ _ _ _ _ _ _ _ _ Hcur Hlead Hscan2 Hgo).
      * rewrite <- (token_eta tok2).
        apply (IH (List.length ts2)) with (m1 := m2)
          (yyextra1 := clear_lookahead
                         (save_lookahead (with_scanner yyextra1 sc2)
                            (kind tok2) (value tok2) (location tok2)));
          trivial.
        lia.
  - (* any other token goes through *)
    rewrite merge_tokens_keep.
    + simpl List.length. eapply filtered_stream_cons.
      * exact (base_yylex_passes _ _ _ _ _ _ _ Hcur Hlead).
      * apply (Hfresh ts1 m1); trivial; [lia |].
        now apply ends_plain_tail with (mk_token t lval1 lloc1).
    + destruct ts1; [exact I |]. now apply continues_plain.
Qed.

Lemma merge_tokens_length_both ts :
  ((List.length (merge_tokens ts) <= List.length ts)%nat
   /\ (List.length ts <= 2 * List.length (merge_tokens ts))%nat)
  /\ forall t : token core_YYSTYPE,
      (List.length (merge_tokens (t :: ts)) <= List.length (t :: ts))%nat
      /\ (List.length (t :: ts) <= 2 * List.length (merge_tokens (t :: ts)))%nat.
Proof.
  induction ts as [| u ts [IHts IHcons]].
  - split; [simpl; lia | intros t; simpl; lia].
  - split; [apply IHcons |].
    intros t. cbn [merge_tokens].
    destruct (continues (kind t) (kind u)).
    + simpl List.length in *. lia.
    + specialize (IHcons u). simpl List.length in *. lia.
Qed.

(** X5: the filter, run on a scanner that starts with an empty buffer,
    computes [merge_tokens].  If the scanner delivers the tokens [ts] without
    error and the last of them is not a lead token (the end-of-input token
    at the latest), the grammar receives exactly [merge_tokens ts], in this
    order, and no error. *)
Theorem filter_computes_merge_tokens (m : nat) lvalp llocp yyextra ts :
  have_lookahead yyextra = false ->
  raw_stream m lvalp llocp (core_yy_extra yyextra) = (ts, false) ->
  ends_plain ts = true ->
  filtered_stream (List.length (merge_tokens ts)) lvalp llocp yyextra
  = (merge_tokens ts, false).
Proof.
  intros Hfree Hraw Hend.
  destruct ts as [| tok ts']; [reflexivity |].
  destruct (raw_stream_cons _ _ _ _ _ _ Hraw) as (m' & sc' & _ & Hscan' & Hraw').
  pose proof (get_next_token_fresh _ _ _ _ _ _ _ Hfree Hscan') as Hcur'.
  rewrite <- (token_eta tok).
  apply (filtered_stream_from_current (List.length ts')) with
    (m1 := m') (yyextra1 := with_scanner yyextra sc'); trivial.
Qed.

(** *** What the filter has read when it hands out a token *)

Lemma state_after_S {St : Type}
    (yylex : core_YYSTYPE -> YYLTYPE -> St -> exc (lexed core_YYSTYPE St))
    (n : nat) lvalp llocp (st : St) t lval lloc (st' : St) :
  yylex lvalp llocp st = Return (t, lval, lloc, st') ->
  state_after yylex (S n) lvalp llocp st = state_after yylex n lval lloc st'.
Proof. intros Hcall. simpl. now rewrite Hcall. Qed.

Lemma raw_stream_nil (m : nat) lvalp llocp sc :
  raw_stream m lvalp llocp sc = ([], false) -> m = 0%nat.
Proof.
  unfold raw_stream. destruct m as [| m]; simpl; [reflexivity |].
  destruct (core_yylex lvalp llocp sc) as [[[[t lval] lloc] sc1] |]; [| discriminate].
  destruct (pull core_yylex m lval lloc sc1). discriminate.
Qed.

(** With the current token in hand and the raw tokens that follow it
    known, the calls that hand out their merge leave the scanner where
    reading those raw tokens leaves it, and the buffer empty. *)
Lemma state_after_from_current (k : nat) :
  forall ts1 (m1 : nat) lvalp llocp yyextra t lval1 lloc1 yyextra1,
    List.length ts1 = k ->
    get_next_token lvalp llocp yyextra = Return (t, lval1, lloc1, yyextra1) ->
    raw_stream m1 lval1 lloc1 (core_yy_extra yyextra1) = (ts1, false) ->
    ends_plain (mk_token t lval1 lloc1 :: ts1) = true ->
    exists lval lloc yyextra',
      state_after base_yylex
        (List.length (merge_tokens (mk_token t lval1 lloc1 :: ts1)))
        lvalp llocp yyextra
      = Return (lval, lloc, yyextra')
      /\ have_lookahead yyextra' = false
      /\ state_after core_yylex m1 lval1 lloc1 (core_yy_extra yyextra1)
         = Return (lval, lloc, core_yy_extra yyextra').
Proof.
  induction k as [k IH] using (well_founded_induction lt_wf).
  intros ts1 m1 lvalp llocp yyextra t lval1 lloc1 yyextra1 Hlen Hcur Hraw Hend.
  pose proof (get_next_token_empties _ _ _ _ _ _ _ Hcur) as Hfree1.
  assert (Hfresh : forall ts (m : nat) lval lloc yyextra0,
             (List.length ts <= k)%nat ->
             have_lookahead yyextra0 = false ->
             raw_stream m lval lloc (core_yy_extra yyextra0) = (ts, false) ->
             ends_plain ts = true ->
             exists lval' lloc' yyextra',
               state_after base_yylex (List.length (merge_tokens ts)) lval lloc yyextra0
               = Return (lval', lloc', yyextra')
               /\ have_lookahead yyextra' = false
               /\ state_after core_yylex m lval lloc (core_yy_extra yyextra0)
                  = Return (lval', lloc', core_yy_extra yyextra')).
  { intros ts m lval lloc yyextra0 Hle Hfree0 Hraw0 Hend0.
    destruct ts as [| tok ts'].
    - rewrite (raw_stream_nil _ _ _ _ Hraw0). exists lval, lloc, yyextra0.
      repeat split. exact Hfree0.
    - destruct (raw_stream_cons _ _ _ _ _ _ Hraw0) as (m' & sc' & -> & Hscan' & Hraw').
      pose proof (get_next_token_fresh _ _ _ _ _ _ _ Hfree0 Hscan') as Hcur'.
      rewrite (state_after_S core_yylex _ _ _ _ _ _ _ _ Hscan').
      rewrite <- (token_eta tok).
      apply (IH (List.length ts')) with (yyextra1 := with_scanner yyextra0 sc');
        trivial. }
  destruct (is_lead t) eqn:Hlead.
  - destruct ts1 as [| tok2 ts2].
    { simpl in Hend. rewrite Hlead in Hend. discriminate. }
    destruct (raw_stream_cons _ _ _ _ _ _ Hraw) as (m2 & sc2 & -> & Hscan2 & Hraw2).
    simpl in Hlen.
    rewrite (state_after_S core_yylex _ _ _ _ _ _ _ _ Hscan2).
    destruct (continues t (kind tok2)) eqn:Hgo.
    + rewrite merge_tokens_join by exact Hgo. simpl List.length.
      rewrite (state_after_S base_yylex _ _ _ _ _ _ _ _
                 (base_yylex_composite _ _ _ _ _ _ _ _ _ _ _ Hcur Hscan2 Hgo)).
      apply (Hfresh ts2 m2 _ _ (with_scanner yyextra1 sc2)); trivial; [lia |].
      now apply ends_plain_tail with tok2.
    + rewrite merge_tokens_keep by exact Hgo. simpl List.length.
      rewrite (state_after_S base_yylex _ _ _ _ _ _ _ _
                 (base_yylex_lead_alone _ _ _ _ _ _ _ _ _ _ _ Hcur Hlead Hscan2 Hgo)).
      rewrite <- (token_eta tok2).
      apply (IH (List.length ts2)) with
        (yyextra1 := clear_lookahead
                       (save_lookahead (with_scanner yyextra1 sc2)
                          (kind tok2) (value tok2) (location tok2)));
        trivial.
      lia.
  - rewrite merge_tokens_keep.
    + simpl List.length.
      rewrite (state_after_S base_yylex _ _ _ _ _ _ _ _
                 (base_yylex_passes _ _ _ _ _ _ _ Hcur Hlead)).
      apply (Hfresh ts1 m1); trivial; [lia |].
      now apply ends_plain_tail with (mk_token t lval1 lloc1).
    + destruct ts1; [exact I |]. now apply continues_plain.
Qed.

(** X6: the filter reads what it hands out, no more.  For [m] raw tokens
    delivered without error and ending in a token that is not a lead, the
    grammar receives them merged in [n] calls, where [n] is the length of
    [merge_tokens ts] and [n <= m <= 2 * n]; after these [n] calls nothing
    is buffered, and the scanner state, [*lvalp] and [*llocp] are those that
    [m] calls of the scanner itself leave. *)
Theorem filter_output_length (m : nat) lvalp llocp yyextra ts :
  have_lookahead yyextra = false ->
  raw_stream m lvalp llocp (core_yy_extra yyextra) = (ts, false) ->
  ends_plain ts = true ->
  (List.length (merge_tokens ts) <= m)%nat
  /\ (m <= 2 * List.length (merge_tokens ts))%nat
  /\ filtered_stream (List.length (merge_tokens ts)) lvalp llocp yyextra
     = (merge_tokens ts, false)
  /\ exists lval lloc yyextra',
       state_after base_yylex (List.length (merge_tokens ts)) lvalp llocp yyextra
       = Return (lval, lloc, yyextra')
       /\ have_lookahead yyextra' = false
       /\ state_after core_yylex m lvalp llocp (core_yy_extra yyextra)
          = Return (lval, lloc, core_yy_extra yyextra').
Proof.
  intros Hfree Hraw Hend.
  pose proof (raw_stream_length _ _ _ _ _ Hraw) as Hm.
  destruct (merge_tokens_length_both ts) as [[Hle Hge] _].
  split; [lia |]. split; [lia |].
  destruct ts as [| tok ts'].
  - rewrite (raw_stream_nil _ _ _ _ Hraw).
    split; [reflexivity |]. exists lvalp, llocp, yyextra. repeat split. exact Hfree.
  - destruct (raw_stream_cons _ _ _ _ _ _ Hraw) as (m' & sc' & -> & Hscan' & Hraw').
    pose proof (get_next_token_fresh _ _ _ _ _ _ _ Hfree Hscan') as Hcur'.
    rewrite (state_after_S core_yylex _ _ _ _ _ _ _ _ Hscan').
    rewrite <- (token_eta tok). split.
    + apply (filtered_stream_from_current (List.length ts')) with
        (m1 := m') (yyextra1 := with_scanner yyextra sc'); trivial.
    + apply (state_after_from_current (List.length ts')) with
        (yyextra1 := with_scanner yyextra sc'); trivial.
Qed.

(** *** A token taken from the buffer *)

Lemma filtered_stream_two (n : nat) lvalp llocp yyextra
    t1 lval1 lloc1 yyextra1 t2 lval2 lloc2 yyextra2 :
  base_yylex lvalp llocp yyextra = Return (t1, lval1, lloc1, yyextra1) ->
  base_yylex lval1 lloc1 yyextra1 = Return (t2, lval2, lloc2, yyextra2) ->
  filtered_stream (2 + n) lvalp llocp yyextra
  = (mk_token t1 lval1 lloc1 :: mk_token t2 lval2 lloc2
       :: fst (filtered_stream n lval2 lloc2 yyextra2),
     snd (filtered_stream n lval2 lloc2 yyextra2)).
Proof.
  intros Hcall1 Hcall2. unfold filtered_stream. simpl.
  rewrite Hcall1, Hcall2.
  now destruct (pull base_yylex n lval2 lloc2 yyextra2).
Qed.

Lemma filtered_stream_second_raises (n : nat) lvalp llocp yyextra
    t1 lval1 lloc1 yyextra1 :
  base_yylex lvalp llocp yyextra = Return (t1, lval1, lloc1, yyextra1) ->
  base_yylex lval1 lloc1 yyextra1 = Raise ->
  filtered_stream (2 + n) lvalp llocp yyextra = ([mk_token t1 lval1 lloc1], true).
Proof.
  intros Hcall1 Hcall2. unfold filtered_stream. simpl.
  now rewrite Hcall1, Hcall2.
Qed.

(** C5, as the code has it: a call made while a token is buffered takes
    that token, with its saved value and location, as the current token and
    clears the buffer.  If the token is neither NULLS nor WITH it is
    returned as it was saved and the scanner is not read.  If it is NULLS or
    WITH the scanner is read once, for the probe: the call raises when that
    read raises; it returns the composite, with what the scanner stored for
    the probe and nothing buffered, when the probe continues the buffered
    token; otherwise it returns the buffered token as it was saved and
    buffers the probe. *)
Theorem buffered_token_goes_through_the_switch lvalp llocp yyextra :
  have_lookahead yyextra = true ->
  (lookahead_token yyextra <> NULLS_P -> lookahead_token yyextra <> WITH ->
   exists yyextra',
     base_yylex lvalp llocp yyextra
     = Return (lookahead_token yyextra, lookahead_yylval yyextra,
               lookahead_yylloc yyextra, yyextra')
     /\ have_lookahead yyextra' = false
     /\ core_yy_extra yyextra' = core_yy_extra yyextra)
  /\ (lookahead_token yyextra = NULLS_P \/ lookahead_token yyextra = WITH ->
      (core_yylex (lookahead_yylval yyextra) (lookahead_yylloc yyextra)
         (core_yy_extra yyextra) = Raise ->
       base_yylex lvalp llocp yyextra = Raise)
      /\ (forall probe lval2 lloc2 sc2,
            core_yylex (lookahead_yylval yyextra) (lookahead_yylloc yyextra)
              (core_yy_extra yyextra) = Return (probe, lval2, lloc2, sc2) ->
            (continues (lookahead_token yyextra) probe = true ->
             exists yyextra',
               base_yylex lvalp llocp yyextra
               = Return (composite_of (lookahead_token yyextra) probe,
                         lval2, lloc2, yyextra')
               /\ have_lookahead yyextra' = false
               /\ core_yy_extra yyextra' = sc2)
            /\ (continues (lookahead_token yyextra) probe = false ->
                exists yyextra',
                  base_yylex lvalp llocp yyextra
                  = Return (lookahead_token yyextra, lookahead_yylval yyextra,
                            lookahead_yylloc yyextra, yyextra')
                  /\ have_lookahead yyextra' = true
                  /\ lookahead_token yyextra' = probe
                  /\ lookahead_yylval yyextra' = lval2
                  /\ lookahead_yylloc yyextra' = lloc2
                  /\ core_yy_extra yyextra' = sc2))).
Proof.
  intros Hheld.
  pose proof (get_next_token_buffered lvalp llocp yyextra Hheld) as Hcur.
  split.
  - intros Hn Hw. exists (clear_lookahead yyextra). repeat split.
    apply base_yylex_passes; auto using not_lead.
  - intros Hlead. apply is_lead_true in Hlead. split.
    + intros Herr. now apply (base_yylex_probe_raises _ _ _ _ _ _ _ Hcur).
    + intros probe lval2 lloc2 sc2 Hscan. split; intros Hgo.
      * exists (with_scanner (clear_lookahead yyextra) sc2). repeat split.
        now apply (base_yylex_composite _ _ _ _ _ _ _ _ _ _ _ Hcur).
      * exists (save_lookahead (with_scanner (clear_lookahead yyextra) sc2)
                  probe lval2 lloc2).
        repeat split.
        now apply (base_yylex_lead_alone _ _ _ _ _ _ _ _ _ _ _ Hcur).
Qed.

(** C2, as the code has it: a lead token (NULLS or WITH), fresh from the
    scanner or taken from the buffer, whose probe does not continue it is
    returned with its own value and location, and the probe is buffered.
    The next call takes the probe from the buffer.  A probe that is neither
    NULLS nor WITH is returned unchanged, without a read of the scanner.  A
    probe that is NULLS or WITH makes the next call read the scanner once
    more: the call raises when that read raises, and then the probe is never
    handed out; it returns the composite, with what the scanner stored for
    the third token, when that token continues the probe; otherwise it
    returns the probe unchanged.  Whenever the probe is returned unchanged
    the grammar has received lead and probe, in this order and once each,
    followed by what the filter produces from there; when the buffer was
    empty at the start these are the first two raw tokens. *)
Theorem unmerged_lead_then_probe lvalp llocp yyextra lead lval1 lloc1 yyextra1
    probe lval2 lloc2 sc2 :
  get_next_token lvalp llocp yyextra = Return (lead, lval1, lloc1, yyextra1) ->
  lead = NULLS_P \/ lead = WITH ->
  core_yylex lval1 lloc1 (core_yy_extra yyextra1) = Return (probe, lval2, lloc2, sc2) ->
  continues lead probe = false ->
  exists yyextra',
    base_yylex lvalp llocp yyextra = Return (lead, lval1, lloc1, yyextra')
    /\ have_lookahead yyextra' = true
    /\ lookahead_token yyextra' = probe
    /\ lookahead_yylval yyextra' = lval2
    /\ lookahead_yylloc yyextra' = lloc2
    /\ core_yy_extra yyextra' = sc2
    /\ (have_lookahead yyextra = false ->
        raw_stream 2 lvalp llocp (core_yy_extra yyextra)
        = ([mk_token lead lval1 lloc1; mk_token probe lval2 lloc2], false))
    /\ (is_lead probe = false ->
        exists yyextra2,
          (forall lvalp' llocp',
              base_yylex lvalp' llocp' yyextra' = Return (probe, lval2, lloc2, yyextra2))
          /\ have_lookahead yyextra2 = false
          /\ core_yy_extra yyextra2 = sc2
          /\ (forall n,
                filtered_stream (2 + n) lvalp llocp yyextra
                = (mk_token lead lval1 lloc1 :: mk_token probe lval2 lloc2
                     :: fst (filtered_stream n lval2 lloc2 yyextra2),
                   snd (filtered_stream n lval2 lloc2 yyextra2))))
    /\ (is_lead probe = true ->
        (core_yylex lval2 lloc2 sc2 = Raise ->
         (forall lvalp' llocp', base_yylex lvalp' llocp' yyextra' = Raise)
         /\ (forall n,
               filtered_stream (2 + n) lvalp llocp yyextra
               = ([mk_token lead lval1 lloc1], true)))
        /\ (forall third lval3 lloc3 sc3,
              core_yylex lval2 lloc2 sc2 = Return (third, lval3, lloc3, sc3) ->
              (continues probe third = true ->
               exists yyextra2,
                 (forall lvalp' llocp',
                     base_yylex lvalp' llocp' yyextra'
                     = Return (composite_of probe third, lval3, lloc3, yyextra2))
                 /\ have_lookahead yyextra2 = false
                 /\ core_yy_extra yyextra2 = sc3
                 /\ (forall n,
                       filtered_stream (2 + n) lvalp llocp yyextra
                       = (mk_token lead lval1 lloc1
                            :: mk_token (composite_of probe third) lval3 lloc3
                            :: fst (filtered_stream n lval3 lloc3 yyextra2),
                          snd (filtered_stream n lval3 lloc3 yyextra2))))
              /\ (continues probe third = false ->
                  exists yyextra2,
                    (forall lvalp' llocp',
                        base_yylex lvalp' llocp' yyextra'
                        = Return (probe, lval2, lloc2, yyextra2))
                    /\ have_lookahead yyextra2 = true
                    /\ lookahead_token yyextra2 = third
                    /\ core_yy_extra yyextra2 = sc3
                    /\ (forall n,
                          filtered_stream (2 + n) lvalp llocp yyextra
                          = (mk_token lead lval1 lloc1 :: mk_token probe lval2 lloc2
                               :: fst (filtered_stream n lval2 lloc2 yyextra2),
                             snd (filtered_stream n lval2 lloc2 yyextra2)))))).
Proof.
  intros Hcur Hlead Hscan Hstop.
  apply is_lead_true in Hlead.
  pose proof (base_yylex_lead_alone _ _ _ _ _ _ _ _ _ _ _
                Hcur Hlead Hscan Hstop) as Hcall1.
  set (yyextra' := save_lookahead (with_scanner yyextra1 sc2) probe lval2 lloc2) in *.
  assert (Hcur2 : forall lvalp' llocp',
             get_next_token lvalp' llocp' yyextra'
             = Return (probe, lval2, lloc2, clear_lookahead yyextra')).
  { intros lvalp' llocp'. now apply get_next_token_buffered. }
  exists yyextra'.
  do 6 (split; [trivial |]).
  split; [| split].
  - intros Hfree. unfold get_next_token, scan in Hcur. rewrite Hfree in Hcur.
    unfold raw_stream. simpl.
    destruct (core_yylex lvalp llocp (core_yy_extra yyextra))
      as [[[[t lval] lloc] sc] |]; simpl in Hcur; [| discriminate].
    injection Hcur as -> -> -> <-. simpl in Hscan. now rewrite Hscan.
  - intros Hplain.
    assert (Hcall2 : forall lvalp' llocp',
               base_yylex lvalp' llocp' yyextra'
               = Return (probe, lval2, lloc2, clear_lookahead yyextra')).
    { intros lvalp' llocp'. now apply base_yylex_passes. }
    exists (clear_lookahead yyextra'). repeat split; trivial.
    intros n. now apply filtered_stream_two with yyextra'.
  - intros Hprobe. split.
    + intros Herr.
      assert (Hcall2 : forall lvalp' llocp', base_yylex lvalp' llocp' yyextra' = Raise).
      { intros lvalp' llocp'.
        now apply (base_yylex_probe_raises _ _ _ _ _ _ _ (Hcur2 lvalp' llocp')). }
      split; [exact Hcall2 |].
      intros n. now apply filtered_stream_second_raises with yyextra'.
    + intros third lval3 lloc3 sc3 Hscan3. split; intros Hgo.
      * assert (Hcall2 : forall lvalp' llocp',
                   base_yylex lvalp' llocp' yyextra'
                   = Return (composite_of probe third, lval3, lloc3,
                             with_scanner (clear_lookahead yyextra') sc3)).
        { intros lvalp' llocp'.
          now apply (base_yylex_composite _ _ _ _ _ _ _ _ _ _ _ (Hcur2 lvalp' llocp')). }
        exists (with_scanner (clear_lookahead yyextra') sc3). repeat split; trivial.
        intros n. now apply filtered_stream_two with yyextra'.
      * assert (Hcall2 : forall lvalp' llocp',
                   base_yylex lvalp' llocp' yyextra'
                   = Return (probe, lval2, lloc2,
                             save_lookahead (with_scanner (clear_lookahead yyextra') sc3)
                               third lval3 lloc3)).
        { intros lvalp' llocp'.
          now apply (base_yylex_lead_alone _ _ _ _ _ _ _ _ _ _ _ (Hcur2 lvalp' llocp')). }
        eexists. repeat split; [exact Hcall2 | ..]; trivial.
        intros n. now apply filtered_stream_two with yyextra'.
Qed.

End FilterStreams.

(** ** More on version strings and session parameters *)

Lemma wrap_int_small (z : Z) : -2147483648 <= z < 2147483648 -> wrap_int z = z.
Proof. intros Hz. unfold wrap_int. rewrite Z.mod_small; lia. Qed.

Lemma clamp_long_small (z : Z) : -2147483648 <= z < 2147483648 -> clamp_long z = z.
Proof. intros Hz. unfold clamp_long. lia. Qed.

(** [sscanf] has stored as many values as it reports, when it reports two
    or three. *)
Lemma sscanf_d_d_d_shape (v : string) :
  fst (Libc.sscanf_d_d_d v) < 2
  \/ (exists a b, Libc.sscanf_d_d_d v = (2, [a; b]))
  \/ (exists a b c, Libc.sscanf_d_d_d v = (3, [a; b; c])).
Proof.
  unfold Libc.sscanf_d_d_d.
  destruct (Libc.conv_d v) as [a r1 | |]; try (left; simpl; unfold Libc.EOF; lia).
  destruct (Libc.match_dot r1) as [r2 |]; try (left; simpl; lia).
  destruct (Libc.conv_d r2) as [b r3 | |]; try (left; simpl; lia).
  destruct (Libc.match_dot r3) as [r4 |]; [| right; left; eauto].
  destruct (Libc.conv_d r4) as [c r5 | |]; right; [right | left | left]; eauto.
Qed.

(** X7: [parse_version] never uses [vmaj], [vmin] or [vrev] without
    [sscanf] having stored into them: whatever the three variables hold
    before the call, the result is the same. *)
Theorem parse_version_ignores_uninitialised (vmaj0 vmin0 vrev0 : Z) (versionString : string) :
  parse_version_from vmaj0 vmin0 vrev0 versionString = parse_version versionString.
Proof.
  unfold parse_version.
  destruct (sscanf_d_d_d_shape versionString)
    as [Hfew | [(a & b & Hs) | (a & b & c & Hs)]].
  - now rewrite !parse_version_from_junk.
  - unfold parse_version_from. now rewrite Hs.
  - unfold parse_version_from. now rewrite Hs.
Qed.

(** *** Numerals *)

Lemma digit_char_facts (d : Z) :
  0 <= d <= 9 ->
  Libc.isdigit (digit_char d) = true
  /\ Libc.digit_value (digit_char d) = d
  /\ Libc.isspace (digit_char d) = false
  /\ Ascii.eqb (digit_char d) "-" = false
  /\ Ascii.eqb (digit_char d) "+" = false.
Proof.
  intros Hd.
  assert (Hcases : d = 0 \/ d = 1 \/ d = 2 \/ d = 3 \/ d = 4 \/ d = 5 \/ d = 6
                   \/ d = 7 \/ d = 8 \/ d = 9) by lia.
  repeat (destruct Hcases as [-> | Hcases]; [repeat split |]).
  subst d. repeat split.
Qed.

Lemma scan_digits_stops (tail : string) (acc : Z) (seen : bool) :
  no_digit_ahead tail -> Libc.scan_digits tail acc seen = (acc, seen, tail).
Proof. destruct tail as [| c tail]; simpl; [reflexivity | now intros ->]. Qed.

Lemma scan_digits_numeral (ds : list Z) (tail : string) :
  forallb (fun d => (0 <=? d) && (d <=? 9)) ds = true ->
  no_digit_ahead tail ->
  forall (acc : Z) (seen : bool),
    Libc.scan_digits (numeral ds ++ tail) acc seen
    = (fold_left (fun a d => 10 * a + d) ds acc,
       match ds with [] => seen | _ :: _ => true end,
       tail).
Proof.
  intros Hds Htail. induction ds as [| d ds IH]; intros acc seen.
  - simpl. now apply scan_digits_stops.
  - simpl in Hds. apply andb_true_iff in Hds as [Hd Hds].
    apply andb_true_iff in Hd as [Hlo Hhi].
    apply Z.leb_le in Hlo, Hhi.
    destruct (digit_char_facts d (conj Hlo Hhi)) as (Hdig & Hval & _).
    cbn [numeral append Libc.scan_digits]. rewrite Hdig, Hval.
    rewrite (IH Hds). now destruct ds.
Qed.

Lemma numeral_value_bounds (ds : list Z) :
  forallb (fun d => (0 <=? d) && (d <=? 9)) ds = true ->
  forall acc, 0 <= acc -> 0 <= fold_left (fun a d => 10 * a + d) ds acc.
Proof.
  induction ds as [| d ds IH]; intros Hds acc Hacc; cbn [fold_left]; [exact Hacc |].
  cbn [forallb] in Hds. apply andb_true_iff in Hds as [Hd Hds].
  apply andb_true_iff in Hd as [Hlo _]. apply Z.leb_le in Hlo.
  apply IH; [exact Hds | lia].
Qed.

Lemma is_numeral_digits (ds : list Z) :
  is_numeral ds = true ->
  ds <> [] /\ forallb (fun d => (0 <=? d) && (d <=? 9)) ds = true.
Proof. destruct ds; [discriminate | split; [discriminate | trivial]]. Qed.

(** [%d] applied to a numeral reads all of it. *)
Lemma conv_d_numeral (ds : list Z) (tail : string) :
  is_numeral ds = true ->
  no_digit_ahead tail ->
  Libc.conv_d (numeral ds ++ tail)
  = Libc.Converted (wrap_int (clamp_long (numeral_value ds))) tail.
Proof.
  intros Hnum Htail.
  destruct (is_numeral_digits ds Hnum) as [Hne Hds].
  pose proof (scan_digits_numeral ds tail Hds Htail 0 false) as Hscan.
  destruct ds as [| d ds]; [congruence |].
  assert (Hd : 0 <= d <= 9).
  { simpl in Hds. apply andb_true_iff in Hds as [Hd _].
    apply andb_true_iff in Hd as [Hlo Hhi]. apply Z.leb_le in Hlo, Hhi. lia. }
  destruct (digit_char_facts d Hd) as (_ & _ & Hsp & Hminus & Hplus).
  unfold Libc.conv_d.
  cbn [numeral append Libc.skip_space] in *. rewrite Hsp, Hminus, Hplus.
  now rewrite Hscan.
Qed.

Lemma match_dot_dot (s : string) : Libc.match_dot ("." ++ s) = Some s.
Proof. reflexivity. Qed.

Lemma is_suffix_no_digit (tail : string) : is_suffix tail = true -> no_digit_ahead tail.
Proof.
  destruct tail as [| c tail]; simpl; [trivial |].
  intros H. apply andb_true_iff in H as [H _]. now apply negb_true_iff in H.
Qed.

Lemma is_suffix_no_dot (tail : string) : is_suffix tail = true -> Libc.match_dot tail = None.
Proof.
  destruct tail as [| c tail]; simpl; [trivial |].
  intros H. apply andb_true_iff in H as [_ H]. apply negb_true_iff in H. now rewrite H.
Qed.

Lemma dot_no_digit (s : string) : no_digit_ahead ("." ++ s).
Proof. reflexivity. Qed.

Lemma numeral_value_nonneg (ds : list Z) : is_numeral ds = true -> 0 <= numeral_value ds.
Proof.
  intros Hnum. destruct (is_numeral_digits ds Hnum) as [_ Hds].
  apply numeral_value_bounds; [exact Hds | lia].
Qed.

Lemma sscanf_three (vmaj vmin vrev : list Z) (tail : string) :
  is_numeral vmaj = true -> is_numeral vmin = true -> is_numeral vrev = true ->
  is_suffix tail = true ->
  Libc.sscanf_d_d_d (version_string vmaj vmin vrev tail)
  = (3, [wrap_int (clamp_long (numeral_value vmaj));
         wrap_int (clamp_long (numeral_value vmin));
         wrap_int (clamp_long (numeral_value vrev))]).
Proof.
  intros Hmaj Hmin Hrev Htail. unfold version_string, Libc.sscanf_d_d_d.
  rewrite (conv_d_numeral vmaj _ Hmaj (dot_no_digit _)), match_dot_dot.
  rewrite (conv_d_numeral vmin _ Hmin (dot_no_digit _)), match_dot_dot.
  now rewrite (conv_d_numeral vrev _ Hrev (is_suffix_no_digit _ Htail)).
Qed.

Lemma parse_version_three (vmaj vmin vrev : list Z) (tail : string) :
  is_numeral vmaj = true -> is_numeral vmin = true -> is_numeral vrev = true ->
  is_suffix tail = true ->
  (100 * numeral_value vmaj + numeral_value vmin) * 100 + numeral_value vrev
    < 2147483648 ->
  parse_version (version_string vmaj vmin vrev tail)
  = (100 * numeral_value vmaj + numeral_value vmin) * 100 + numeral_value vrev.
Proof.
  intros Hmaj Hmin Hrev Htail Hfit.
  pose proof (numeral_value_nonneg _ Hmaj).
  pose proof (numeral_value_nonneg _ Hmin).
  pose proof (numeral_value_nonneg _ Hrev).
  unfold parse_version, parse_version_from.
  rewrite (sscanf_three _ _ _ _ Hmaj Hmin Hrev Htail).
  cbn [nth].
  set (a := numeral_value vmaj) in *.
  set (b := numeral_value vmin) in *.
  set (c := numeral_value vrev) in *.
  rewrite (clamp_long_small a), (clamp_long_small b), (clamp_long_small c) by lia.
  rewrite (wrap_int_small a), (wrap_int_small b), (wrap_int_small c) by lia.
  rewrite (wrap_int_small (100 * a)) by lia.
  rewrite (wrap_int_small (100 * a + b)) by lia.
  rewrite (wrap_int_small ((100 * a + b) * 100)) by lia.
  change (3 <? 2) with false. change (3 =? 2) with false. cbv iota.
  now rewrite (wrap_int_small ((100 * a + b) * 100 + c)) by lia.
Qed.

(** X8: a version string made of three decimal numbers separated by dots,
    followed by nothing or by text that starts with neither a digit nor a
    dot, is stored as [(100 * major + minor) * 100 + revision], as long as
    that value fits an [int]. *)
Theorem parse_version_major_minor_revision (vmaj vmin vrev : list Z) (tail : string) :
  is_numeral vmaj = true -> is_numeral vmin = true -> is_numeral vrev = true ->
  is_suffix tail = true ->
  (100 * numeral_value vmaj + numeral_value vmin) * 100 + numeral_value vrev
    < 2147483648 ->
  parse_version (numeral vmaj ++ "." ++ numeral vmin ++ "." ++ numeral vrev ++ tail)
  = (100 * numeral_value vmaj + numeral_value vmin) * 100 + numeral_value vrev.
Proof. apply parse_version_three. Qed.

(** X9: with major and minor only the revision counts as 0: two decimal
    numbers separated by a dot, followed by nothing or by text that starts
    with neither a digit nor a dot, are stored as
    [(100 * major + minor) * 100]. *)
Theorem parse_version_major_minor (vmaj vmin : list Z) (tail : string) :
  is_numeral vmaj = true -> is_numeral vmin = true ->
  is_suffix tail = true ->
  (100 * numeral_value vmaj + numeral_value vmin) * 100 < 2147483648 ->
  parse_version (numeral vmaj ++ "." ++ numeral vmin ++ tail)
  = (100 * numeral_value vmaj + numeral_value vmin) * 100.
Proof.
  intros Hmaj Hmin Htail Hfit.
  pose proof (numeral_value_nonneg _ Hmaj).
  pose proof (numeral_value_nonneg _ Hmin).
  unfold parse_version, parse_version_from, Libc.sscanf_d_d_d.
  rewrite (conv_d_numeral vmaj _ Hmaj (dot_no_digit _)), match_dot_dot.
  rewrite (conv_d_numeral vmin _ Hmin (is_suffix_no_digit _ Htail)).
  rewrite (is_suffix_no_dot _ Htail).
  cbn [nth].
  set (a := numeral_value vmaj) in *.
  set (b := numeral_value vmin) in *.
  rewrite (clamp_long_small a), (clamp_long_small b) by lia.
  rewrite (wrap_int_small a), (wrap_int_small b) by lia.
  rewrite (wrap_int_small (100 * a)) by lia.
  rewrite (wrap_int_small (100 * a + b)) by lia.
  rewrite (wrap_int_small ((100 * a + b) * 100)) by lia.
  change (2 <? 2) with false. change (2 =? 2) with true. cbv iota.
  rewrite Z.add_0_r. now rewrite wrap_int_small by lia.
Qed.

(** X10: one number is not a version: a decimal number followed by nothing
    or by text that starts with neither a digit nor a dot gives -1, however
    large the number. *)
Theorem parse_version_single_number (vmaj : list Z) (tail : string) :
  is_numeral vmaj = true ->
  is_suffix tail = true ->
  parse_version (numeral vmaj ++ tail) = -1.
Proof.
  intros Hmaj Htail.
  apply parse_version_from_junk.
  unfold Libc.sscanf_d_d_d.
  rewrite (conv_d_numeral vmaj _ Hmaj (is_suffix_no_digit _ Htail)).
  rewrite (is_suffix_no_dot _ Htail). simpl. lia.
Qed.

(** X11: the stored number orders versions the way their components do, as
    long as minor and revision stay below 100 (and the major below 200000):
    one version string gives a smaller number than another exactly when its
    (major, minor, revision) comes first in lexicographic order. *)
Theorem parse_version_orders_versions
    (vmaj vmin vrev : list Z) (tail : string)
    (vmaj' vmin' vrev' : list Z) (tail' : string) :
  is_numeral vmaj = true -> is_numeral vmin = true -> is_numeral vrev = true ->
  is_numeral vmaj' = true -> is_numeral vmin' = true -> is_numeral vrev' = true ->
  is_suffix tail = true -> is_suffix tail' = true ->
  numeral_value vmaj < 200000 -> numeral_value vmaj' < 200000 ->
  numeral_value vmin < 100 -> numeral_value vmin' < 100 ->
  numeral_value vrev < 100 -> numeral_value vrev' < 100 ->
  parse_version (version_string vmaj vmin vrev tail)
    < parse_version (version_string vmaj' vmin' vrev' tail')
  <->
  numeral_value vmaj < numeral_value vmaj'
  \/ (numeral_value vmaj = numeral_value vmaj'
      /\ (numeral_value vmin < numeral_value vmin'
          \/ (numeral_value vmin = numeral_value vmin'
              /\ numeral_value vrev < numeral_value vrev'))).
Proof.
  intros Hmaj Hmin Hrev Hmaj' Hmin' Hrev' Htail Htail' Ba Ba' Bb Bb' Bc Bc'.
  pose proof (numeral_value_nonneg _ Hmaj).
  pose proof (numeral_value_nonneg _ Hmin).
  pose proof (numeral_value_nonneg _ Hrev).
  pose proof (numeral_value_nonneg _ Hmaj').
  pose proof (numeral_value_nonneg _ Hmin').
  pose proof (numeral_value_nonneg _ Hrev').
  rewrite !parse_version_three by (trivial; lia).
  lia.
Qed.

(** *** Setting parameters one after the other *)

(** X12: the last value set for a name is the one that counts: setting
    the same name twice leaves the state that the second call alone would
    leave. *)
Theorem parser_set_param_last_wins (g : parser_params) (name value value' : string) :
  parser_set_param (parser_set_param g name value) name value'
  = parser_set_param g name value'.
Proof.
  unfold parser_set_param.
  destruct (String.eqb name "server_version"); [reflexivity |].
  destruct (String.eqb name "server_encoding"); [reflexivity |].
  destruct (String.eqb name "standard_conforming_strings"); reflexivity.
Qed.

(** X13: parameters with different names do not interfere: two calls for
    different names give the same state in either order. *)
Theorem parser_set_param_commutes (g : parser_params) (name value name' value' : string) :
  name <> name' ->
  parser_set_param (parser_set_param g name value) name' value'
  = parser_set_param (parser_set_param g name' value') name value.
Proof.
  intros Hdiff. unfold parser_set_param.
  destruct (String.eqb name "server_version") eqn:E1,
           (String.eqb name' "server_version") eqn:E1',
           (String.eqb name "server_encoding") eqn:E2,
           (String.eqb name' "server_encoding") eqn:E2',
           (String.eqb name "standard_conforming_strings") eqn:E3,
           (String.eqb name' "standard_conforming_strings") eqn:E3';
    try reflexivity;
    repeat match goal with
           | H : String.eqb _ _ = true |- _ => apply String.eqb_eq in H
           end;
    congruence.
Qed.

(** ** More on the driver *)

Section DriverResults.

Context {gram : GramTokens} {scanner : CoreScanner} {nodes : ParseNodes}.
Context {engine : GrammarEngine}.

(** X14: a tree reaches the caller only from a parse that succeeded: when
    [raw_parser] returns a list other than [NIL], the grammar has returned
    0 and the list is the [parsetree] it left in [yyextra]. *)
Theorem raw_parser_tree_comes_from_success stack g str (tree : List) :
  fst (raw_parser stack g str) = Return tree ->
  tree <> NIL ->
  exists yyextra',
    base_yyparse base_yylex (fresh_yyextra stack str) = Return (0, yyextra')
    /\ tree = parsetree yyextra'.
Proof.
  unfold raw_parser, PG_TRY.
  destruct (base_yyparse base_yylex (fresh_yyextra stack str))
    as [[yyresult yyextra'] |].
  - destruct (Z.eqb_spec yyresult 0) as [-> | Hfail]; simpl.
    + intros [= <-] _. now exists yyextra'.
    + intros [= <-] Htree. now elim Htree.
  - simpl. intros [= <-] Htree. now elim Htree.
Qed.

End DriverResults.

(** ** More runs on the sample scanner and grammar *)

Lemma buffer_holds_only_the_probe_of_a_lead_witness :
  (478 = @NULLS_P Sample.gram \/ 478 = @WITH Sample.gram)
  /\ @continues Sample.gram 478
       (@lookahead_token Sample.scanner Sample.nodes (Sample.holding 258 "x" 15 []))
     = false.
Proof.
  apply (@buffer_holds_only_the_probe_of_a_lead Sample.gram Sample.scanner Sample.nodes
           "" 0 (Sample.start [Sample.Tok 478 "nulls" 9; Sample.Tok 258 "x" 15])
           478 "nulls" 9 (Sample.holding 258 "x" 15 [])).
  - reflexivity.
  - reflexivity.
Defined.

Lemma filter_keeps_parsetree_witness :
  @parsetree Sample.scanner Sample.nodes
    (@mk_extra Sample.scanner Sample.nodes [] false 0 "" 0 ["select"])
  = @parsetree Sample.scanner Sample.nodes
      (Sample.set_parsetree (Sample.start [Sample.Tok 258 "x" 4]) ["select"]).
Proof.
  apply (@filter_keeps_parsetree Sample.gram Sample.scanner Sample.nodes
           "" 0 (Sample.set_parsetree (Sample.start [Sample.Tok 258 "x" 4]) ["select"])
           258 "x" 4).
  reflexivity.
Defined.

Lemma cleared_flag_is_all_the_filter_needs_witness :
  @filtered_stream Sample.gram Sample.scanner Sample.nodes 6 "" 0
    (Sample.start Sample.query)
  = @filtered_stream Sample.gram Sample.scanner Sample.nodes 6 "" 0
      (@mk_extra Sample.scanner Sample.nodes Sample.query false 394 "stale" 77 ["old"]).
Proof.
  apply (@cleared_flag_is_all_the_filter_needs Sample.gram Sample.scanner Sample.nodes).
  - reflexivity.
  - reflexivity.
  - reflexivity.
Defined.

Lemma filter_computes_merge_tokens_witness :
  @filtered_stream Sample.gram Sample.scanner Sample.nodes 5 "" 0
    (Sample.start Sample.query)
  = ([mk_token 639 "first" 15; mk_token 258 "x" 21; mk_token 628 "with" 23;
      mk_token 258 "y" 28; mk_token 0 "" 30], false).
Proof.
  apply (@filter_computes_merge_tokens Sample.gram Sample.scanner Sample.nodes
           6%nat "" 0 (Sample.start Sample.query) Sample.query_tokens).
  - reflexivity.
  - reflexivity.
  - reflexivity.
Defined.

Lemma filter_output_length_witness :
  (5 <= 6)%nat /\ (6 <= 2 * 5)%nat
  /\ @filtered_stream Sample.gram Sample.scanner Sample.nodes 5 "" 0
       (Sample.start Sample.query)
     = ([mk_token 639 "first" 15; mk_token 258 "x" 21; mk_token 628 "with" 23;
         mk_token 258 "y" 28; mk_token 0 "" 30], false)
  /\ exists lval lloc yyextra',
       state_after (@base_yylex Sample.gram Sample.scanner Sample.nodes) 5 "" 0
         (Sample.start Sample.query)
       = Return (lval, lloc, yyextra')
       /\ @have_lookahead Sample.scanner Sample.nodes yyextra' = false
       /\ state_after Sample.list_yylex 6 "" 0 Sample.query
          = Return (lval, lloc, @core_yy_extra Sample.scanner Sample.nodes yyextra').
Proof.
  apply (@filter_output_length Sample.gram Sample.scanner Sample.nodes
           6%nat "" 0 (Sample.start Sample.query) Sample.query_tokens).
  - reflexivity.
  - reflexivity.
  - reflexivity.
Defined.

Lemma parse_version_major_minor_revision_witness :
  parse_version "10.12.7devel" = 101207.
Proof.
  apply (parse_version_major_minor_revision [1; 0] [1; 2] [7] "devel").
  - reflexivity.
  - reflexivity.
  - reflexivity.
  - reflexivity.
  - vm_compute. reflexivity.
Defined.

Lemma parse_version_major_minor_witness :
  parse_version "8.4rc1" = 80400.
Proof.
  apply (parse_version_major_minor [8] [4] "rc1").
  - reflexivity.
  - reflexivity.
  - reflexivity.
  - vm_compute. reflexivity.
Defined.

Lemma parse_version_single_number_witness :
  parse_version "99999999999 is a lot" = -1.
Proof.
  apply (parse_version_single_number [9; 9; 9; 9; 9; 9; 9; 9; 9; 9; 9] " is a lot").
  - reflexivity.
  - reflexivity.
Defined.

Lemma parse_version_orders_versions_witness :
  parse_version "9.1.24" < parse_version "9.2.0beta1"
  <-> 9 < 9 \/ (9 = 9 /\ (1 < 2 \/ (1 = 2 /\ 24 < 0))).
Proof.
  apply (parse_version_orders_versions [9] [1] [2; 4] "" [9] [2] [0] "beta1");
    try reflexivity; vm_compute; reflexivity.
Defined.

Lemma parser_set_param_commutes_witness :
  parser_set_param
    (parser_set_param (initial_params true) "server_encoding" "UTF8")
    "server_version" "9.1.3"
  = parser_set_param
      (parser_set_param (initial_params true) "server_version" "9.1.3")
      "server_encoding" "UTF8".
Proof.
  apply (parser_set_param_commutes (initial_params true)
           "server_encoding" "UTF8" "server_version" "9.1.3").
  apply String.eqb_neq. reflexivity.
Defined.

Lemma raw_parser_tree_comes_from_success_witness :
  exists yyextra',
    Sample.one_word (@base_yylex Sample.gram Sample.scanner Sample.nodes)
      (@fresh_yyextra Sample.scanner Sample.nodes Sample.engine (Sample.start []) "a")
    = Return (0, yyextra')
    /\ ["a"] = @parsetree Sample.scanner Sample.nodes yyextra'.
Proof.
  apply (@raw_parser_tree_comes_from_success Sample.gram Sample.scanner Sample.nodes
           Sample.engine (Sample.start []) (@mk_globals Sample.nodes [] false) "a" ["a"]).
  - reflexivity.
  - discriminate.
Defined.

Lemma buffered_token_goes_through_the_switch_witness :
  exists yyextra',
    @base_yylex Sample.gram Sample.scanner Sample.nodes "" 0
      (Sample.holding 628 "with" 15 [Sample.Tok 596 "time" 20])
    = Return (641, "time", 20, yyextra')
    /\ @have_lookahead Sample.scanner Sample.nodes yyextra' = false
    /\ @core_yy_extra Sample.scanner Sample.nodes yyextra' = [].
Proof.
  destruct (@buffered_token_goes_through_the_switch
              Sample.gram Sample.scanner Sample.nodes "" 0
              (Sample.holding 628 "with" 15 [Sample.Tok 596 "time" 20]) eq_refl)
    as [_ Hlead].
  destruct (Hlead (or_intror eq_refl)) as [_ Hprobe].
  destruct (Hprobe 596 "time" 20 [] eq_refl) as [Hgo _].
  exact (Hgo eq_refl).
Defined.

Lemma unmerged_lead_then_probe_witness :
  exists yyextra',
    @base_yylex Sample.gram Sample.scanner Sample.nodes "" 0
      (Sample.start [Sample.Tok 478 "nulls" 9; Sample.Tok 628 "with" 15; Sample.Bad])
    = Return (478, "nulls", 9, yyextra')
    /\ (forall lvalp' llocp',
          @base_yylex Sample.gram Sample.scanner Sample.nodes lvalp' llocp' yyextra'
          = Raise)
    /\ @filtered_stream Sample.gram Sample.scanner Sample.nodes 2 "" 0
         (Sample.start [Sample.Tok 478 "nulls" 9; Sample.Tok 628 "with" 15; Sample.Bad])
       = ([mk_token 478 "nulls" 9], true).
Proof.
  destruct (@unmerged_lead_then_probe Sample.gram Sample.scanner Sample.nodes
              "" 0
              (Sample.start [Sample.Tok 478 "nulls" 9; Sample.Tok 628 "with" 15;
                             Sample.Bad])
              478 "nulls" 9 (Sample.start [Sample.Tok 628 "with" 15; Sample.Bad])
              628 "with" 15 [Sample.Bad]
              eq_refl (or_introl eq_refl) eq_refl eq_refl)
    as (yyextra' & Hcall & _ & _ & _ & _ & _ & _ & _ & Hlead).
  destruct (Hlead eq_refl) as [Hraise _].
  destruct (Hraise eq_refl) as [Hcall2 Hstream].
  exists yyextra'. split; [exact Hcall |]. split; [exact Hcall2 |].
  exact (Hstream 0%nat).
Defined.

Example parse_version_saturates : parse_version "99999999999999999999.1" = -9900.
Proof. reflexivity. Qed.
